(** * LC-3 virtual machine (LC3_VM.c): shallow embedding and verified properties

    The C program keeps its architectural state in two global arrays
    ([memory] and [reg]), a local [running] flag of [main], and the process's
    standard streams.  The embedding threads one [machine] record through a
    small state-and-fault monad: every C function becomes a computation of
    that monad, with the same name and the same order of effects.

    Conventions of the embedding:
    - a [uint16_t] is a [Z] in [0, 65536); every assignment to a [uint16_t]
      object writes out the conversion [uint16];
    - an [int] is 32 bits wide and wraps ([int32]), a [char] is 8 bits wide
      and signed ([int8]), and the host is little-endian: the ABI the
      program's loader is written for;
    - an array access outside the array's declared extent is the fault
      [OutOfBounds]; [abort()] is the fault [Abort]; a blocking read on an
      exhausted, still open input is the fault [Blocked];
    - the console is the list of bytes that can be read without waiting and
      the list of bytes written; the buffers of the C streams are not
      modelled. *)

From Stdlib Require Import ZArith List Lia Bool.
From Stdlib Require Import Strings.Byte.
Import ListNotations.

Local Open Scope Z_scope.

(* ================================================================= *)
(** ** Machine integers *)

(** Conversion of an [int] value to [uint16_t]. *)
Definition uint16 (z : Z) : Z := z mod 65536.

(** Wrap-around of a 32-bit signed [int]. *)
Definition int32 (z : Z) : Z := (z + 2147483648) mod 4294967296 - 2147483648.

(** Conversion of an [int] value to [char] (signed, 8 bits). *)
Definition int8 (z : Z) : Z := (z + 128) mod 256 - 128.

Definition UINT16_MAX : Z := 65535.

(** A C condition: an integer is true when it is not zero. *)
Definition truthy (z : Z) : bool := negb (z =? 0).

(** [sign_extend], lines 111-117.  [x] is promoted to [int] for both the
    shift and the bitwise or; the or-assignment converts back. *)
Definition sign_extend (x : Z) (bit_count : Z) : Z :=
  if truthy (Z.land (Z.shiftr x (bit_count - 1)) 1)
  then uint16 (Z.lor x (int32 (Z.shiftl 65535 bit_count)))
  else x.

(** [swap16], lines 120-123. *)
Definition swap16 (x : Z) : Z :=
  uint16 (Z.lor (Z.shiftl x 8) (Z.shiftr x 8)).

(* ================================================================= *)
(** ** Constants of the program *)

Definition MR_KBSR : Z := 65024.  (* 0xFE00 *)
Definition MR_KBDR : Z := 65026.  (* 0xFE02 *)

Definition TRAP_GETC  : Z := 32.
Definition TRAP_OUT   : Z := 33.
Definition TRAP_PUTS  : Z := 34.
Definition TRAP_IN    : Z := 35.
Definition TRAP_PUTSP : Z := 36.
Definition TRAP_HALT  : Z := 37.

Definition R_R0 : Z := 0.
Definition R_R7 : Z := 7.
Definition R_PC : Z := 8.
Definition R_COND : Z := 9.
Definition R_COUNT : Z := 10.

Definition OP_BR   : Z := 0.
Definition OP_ADD  : Z := 1.
Definition OP_LD   : Z := 2.
Definition OP_ST   : Z := 3.
Definition OP_JSR  : Z := 4.
Definition OP_AND  : Z := 5.
Definition OP_LDR  : Z := 6.
Definition OP_STR  : Z := 7.
Definition OP_RTI  : Z := 8.
Definition OP_NOT  : Z := 9.
Definition OP_LDI  : Z := 10.
Definition OP_STI  : Z := 11.
Definition OP_JMP  : Z := 12.
Definition OP_RES  : Z := 13.
Definition OP_LEA  : Z := 14.
Definition OP_TRAP : Z := 15.

Definition FL_POS : Z := Z.shiftl 1 0.
Definition FL_ZRO : Z := Z.shiftl 1 1.
Definition FL_NEG : Z := Z.shiftl 1 2.

Definition PC_START : Z := 12288. (* 0x3000 *)

(* ================================================================= *)
(** ** Machine state *)

(** The console: [stdin] holds the bytes that can be read without waiting,
    [stdin_eof] tells whether the stream is closed behind them, [stdout]
    collects the bytes written so far, oldest first. *)
Record console : Type := mkConsole
  { stdin : list byte;
    stdin_eof : bool;
    stdout : list Z }.

(** [memory] is the array [uint16_t memory[UINT16_MAX]] (line 39): its cells
    are the indices [0 .. UINT16_MAX - 1].  [reg] is [uint16_t reg[R_COUNT]]
    (line 64).  [running] is the loop flag of [main]. *)
Record machine : Type := mkMachine
  { memory : Z -> Z;
    reg : Z -> Z;
    running : bool;
    tty : console }.

Definition upd (f : Z -> Z) (i v : Z) : Z -> Z :=
  fun j => if j =? i then v else f j.

Definition with_memory (m : Z -> Z) (s : machine) : machine :=
  mkMachine m (reg s) (running s) (tty s).
Definition with_reg (r : Z -> Z) (s : machine) : machine :=
  mkMachine (memory s) r (running s) (tty s).
Definition with_running (b : bool) (s : machine) : machine :=
  mkMachine (memory s) (reg s) b (tty s).
Definition with_tty (c : console) (s : machine) : machine :=
  mkMachine (memory s) (reg s) (running s) c.

(* ================================================================= *)
(** ** The state-and-fault monad *)

Inductive fault : Type :=
| OutOfBounds    (* access outside the extent of [memory] *)
| Abort          (* [abort()] *)
| Blocked        (* [getchar()] waits for input that never comes *)
| Uninitialised. (* use of an object no read has filled in *)

Inductive result (A : Type) : Type :=
| Ok (a : A) (s : machine)
| Fault (f : fault).
Arguments Ok {A} a s.
Arguments Fault {A} f.

Definition M (A : Type) : Type := machine -> result A.

Definition ret {A} (a : A) : M A := fun s => Ok a s.
Definition fail {A} (f : fault) : M A := fun _ => Fault f.
Definition bind {A B} (m : M A) (k : A -> M B) : M B :=
  fun s => match m s with
           | Ok a s' => k a s'
           | Fault f => Fault f
           end.

Declare Scope vm_scope.
Delimit Scope vm_scope with vm.
Notation "x <- m ;; k" := (bind m (fun x => k))
  (at level 100, m at next level, right associativity) : vm_scope.
Notation "m ;;; k" := (bind m (fun _ => k))
  (at level 100, right associativity) : vm_scope.
Local Open Scope vm_scope.

(** Reads and writes of single objects. *)
Definition in_bounds (i : Z) : bool := (0 <=? i) && (i <? UINT16_MAX).

Definition load (i : Z) : M Z :=
  fun s => if in_bounds i then Ok (memory s i) s else Fault OutOfBounds.

Definition store (i v : Z) : M unit :=
  fun s => if in_bounds i
           then Ok tt (with_memory (upd (memory s) i v) s)
           else Fault OutOfBounds.

Definition get_reg (r : Z) : M Z := fun s => Ok (reg s r) s.
Definition set_reg (r v : Z) : M unit :=
  fun s => Ok tt (with_reg (upd (reg s) r v) s).

(* ================================================================= *)
(** ** Console primitives *)

Definition byteZ (b : byte) : Z := Z.of_N (Byte.to_N b).

(** [getchar()]: the next byte as an [int], [EOF] = -1 on a closed stream. *)
Definition getchar : M Z :=
  fun s => match stdin (tty s) with
           | b :: rest =>
               Ok (byteZ b)
                  (with_tty (mkConsole rest (stdin_eof (tty s)) (stdout (tty s))) s)
           | [] => if stdin_eof (tty s) then Ok (-1) s else Fault Blocked
           end.

(** [putc(c, stdout)]: writes [c] converted to [unsigned char]. *)
Definition putc (c : Z) : M unit :=
  fun s => Ok tt (with_tty (mkConsole (stdin (tty s)) (stdin_eof (tty s))
                                     (stdout (tty s) ++ [c mod 256])) s).

(** One call of [printf] or [puts] with a constant string: its bytes are
    appended to the output. *)
Definition put_bytes (cs : list Z) : M unit :=
  fun s => Ok tt (with_tty (mkConsole (stdin (tty s)) (stdin_eof (tty s))
                                     (stdout (tty s) ++ cs)) s).

(** [fflush(stdout)]: [stdout] of the model is unbuffered. *)
Definition fflush : M unit := ret tt.

(** [check_key], lines 169-179: [select] with a zero timeout reports the
    descriptor readable when a byte is waiting or the stream is closed. *)
Definition check_key : M Z :=
  fun s => match stdin (tty s) with
           | _ :: _ => Ok 1 s
           | [] => Ok (if stdin_eof (tty s) then 1 else 0) s
           end.

(* ================================================================= *)
(** ** Memory access, lines 182-198 *)

Definition mem_write (address value : Z) : M unit :=
  store address value.

Definition mem_read (address : Z) : M Z :=
  (if address =? MR_KBSR then
     k <- check_key ;;
     if truthy k
     then (store MR_KBSR (uint16 (Z.shiftl 1 15)) ;;;
           c <- getchar ;;
           store MR_KBDR (uint16 c))
     else store MR_KBSR 0
   else ret tt) ;;;
  load address.

(** [update_flags], lines 125-134. *)
Definition update_flags (r : Z) : M unit :=
  v <- get_reg r ;;
  if v =? 0 then set_reg R_COND FL_ZRO
  else if truthy (Z.shiftr v 15) then set_reg R_COND FL_NEG
  else set_reg R_COND FL_POS.

(* ================================================================= *)
(** ** Instructions, lines 223-417 *)

Definition op_ADD (instr : Z) : M unit :=
  let DR := Z.land (Z.shiftr instr 9) 7 in
  let SR1 := Z.land (Z.shiftr instr 6) 7 in
  let imm_flag := Z.land (Z.shiftr instr 5) 1 in
  (if truthy imm_flag then
     let imm5 := sign_extend (Z.land instr 31) 5 in
     a <- get_reg SR1 ;;
     set_reg DR (uint16 (a + imm5))
   else
     let SR2 := Z.land instr 7 in
     a <- get_reg SR1 ;;
     b <- get_reg SR2 ;;
     set_reg DR (uint16 (a + b))) ;;;
  update_flags DR.

Definition op_AND (instr : Z) : M unit :=
  let DR := Z.land (Z.shiftr instr 9) 7 in
  let SR1 := Z.land (Z.shiftr instr 6) 7 in
  let imm_flag := Z.land (Z.shiftr instr 5) 1 in
  (if truthy imm_flag then
     let imm5 := sign_extend (Z.land instr 31) 5 in
     a <- get_reg SR1 ;;
     set_reg DR (uint16 (Z.land a imm5))
   else
     let SR2 := Z.land instr 7 in
     a <- get_reg SR1 ;;
     b <- get_reg SR2 ;;
     set_reg DR (uint16 (Z.land a b))) ;;;
  update_flags DR.

Definition op_NOT (instr : Z) : M unit :=
  let DR := Z.land (Z.shiftr instr 9) 7 in
  let SR := Z.land (Z.shiftr instr 6) 7 in
  a <- get_reg SR ;;
  set_reg DR (uint16 (Z.lnot a)) ;;;
  update_flags DR.

Definition op_BR (instr : Z) : M unit :=
  let PC_offset := sign_extend (Z.land instr 511) 9 in
  let cond_flag := Z.land (Z.shiftr instr 9) 7 in
  cond <- get_reg R_COND ;;
  if truthy (Z.land cond_flag cond) then
    pc <- get_reg R_PC ;;
    set_reg R_PC (uint16 (pc + PC_offset))
  else ret tt.

Definition op_JMP (instr : Z) : M unit :=
  let BaseR := Z.land (Z.shiftr instr 6) 7 in
  b <- get_reg BaseR ;;
  set_reg R_PC b.

Definition op_JSR (instr : Z) : M unit :=
  pc <- get_reg R_PC ;;
  set_reg R_R7 pc ;;;
  if truthy (Z.land (Z.shiftr instr 11) 1) then
    let PC_offset := sign_extend (Z.land instr 2047) 11 in
    pc' <- get_reg R_PC ;;
    set_reg R_PC (uint16 (pc' + PC_offset))
  else
    let BaseR := Z.land (Z.shiftr instr 6) 7 in
    b <- get_reg BaseR ;;
    set_reg R_PC b.

Definition op_LD (instr : Z) : M unit :=
  let DR := Z.land (Z.shiftr instr 9) 7 in
  let PC_offset := sign_extend (Z.land instr 511) 9 in
  pc <- get_reg R_PC ;;
  v <- mem_read (uint16 (pc + PC_offset)) ;;
  set_reg DR v ;;;
  update_flags DR.

Definition op_LDI (instr : Z) : M unit :=
  let DR := Z.land (Z.shiftr instr 9) 7 in
  let PC_offset := sign_extend (Z.land instr 511) 9 in
  pc <- get_reg R_PC ;;
  a <- mem_read (uint16 (pc + PC_offset)) ;;
  v <- mem_read a ;;
  set_reg DR v ;;;
  update_flags DR.

Definition op_LDR (instr : Z) : M unit :=
  let DR := Z.land (Z.shiftr instr 9) 7 in
  let BaseR := Z.land (Z.shiftr instr 6) 7 in
  let offset := sign_extend (Z.land instr 63) 6 in
  b <- get_reg BaseR ;;
  v <- mem_read (uint16 (b + offset)) ;;
  set_reg DR v ;;;
  update_flags DR.

Definition op_LEA (instr : Z) : M unit :=
  let DR := Z.land (Z.shiftr instr 9) 7 in
  let PC_offset := sign_extend (Z.land instr 511) 9 in
  pc <- get_reg R_PC ;;
  set_reg DR (uint16 (pc + PC_offset)) ;;;
  update_flags DR.

Definition op_ST (instr : Z) : M unit :=
  let SR := Z.land (Z.shiftr instr 9) 7 in
  let PC_offset := sign_extend (Z.land instr 511) 9 in
  pc <- get_reg R_PC ;;
  v <- get_reg SR ;;
  mem_write (uint16 (pc + PC_offset)) v.

Definition op_STI (instr : Z) : M unit :=
  let SR := Z.land (Z.shiftr instr 9) 7 in
  let PC_offset := sign_extend (Z.land instr 511) 9 in
  pc <- get_reg R_PC ;;
  a <- mem_read (uint16 (pc + PC_offset)) ;;
  v <- get_reg SR ;;
  mem_write a v.

Definition op_STR (instr : Z) : M unit :=
  let SR := Z.land (Z.shiftr instr 9) 7 in
  let BaseR := Z.land (Z.shiftr instr 6) 7 in
  let offset := sign_extend (Z.land instr 63) 6 in
  b <- get_reg BaseR ;;
  v <- get_reg SR ;;
  mem_write (uint16 (b + offset)) v.

(** [op_TRAP], lines 410-417.  The function is defined by the program and
    called from nowhere: [main] dispatches the trap vectors itself. *)
Definition op_TRAP (instr : Z) : M unit :=
  let trap_vect := sign_extend (Z.land instr 255) 8 in
  pc <- get_reg R_PC ;;
  set_reg R_R7 pc ;;;
  v <- mem_read trap_vect ;;
  set_reg R_PC v.

(* ================================================================= *)
(** ** Trap routines, lines 420-484 *)

Definition trap_GETC : M unit :=
  c <- getchar ;;
  set_reg R_R0 (uint16 c).

Definition trap_OUT : M unit :=
  r0 <- get_reg R_R0 ;;
  putc (int8 r0) ;;;
  fflush.

(** The loops of [trap_PUTS] and [trap_PUTSP] walk a pointer [c] up the
    array without wrapping.  [cells] counts the cells left between [c] and
    the end of [memory]: once it is exhausted the next dereference lies
    outside the array. *)
Fixpoint trap_PUTS_loop (cells : nat) (c : Z) : M unit :=
  match cells with
  | O => fail OutOfBounds
  | S cells' =>
      w <- load c ;;
      if truthy w then
        putc (int8 w) ;;;
        trap_PUTS_loop cells' (c + 1)
      else ret tt
  end.

Definition trap_PUTS : M unit :=
  r0 <- get_reg R_R0 ;;
  trap_PUTS_loop (Z.to_nat (UINT16_MAX - r0)) r0 ;;;
  fflush.

Definition prompt : list Z :=
  [69; 110; 116; 101; 114; 32; 97; 32; 99; 104; 97; 114; 97; 99; 116; 101;
   114; 58; 32].  (* "Enter a character: " *)

Definition trap_IN : M unit :=
  put_bytes prompt ;;;
  i <- getchar ;;
  let c := int8 i in
  set_reg R_R0 (uint16 c) ;;;
  putc c.

Fixpoint trap_PUTSP_loop (cells : nat) (c : Z) : M unit :=
  match cells with
  | O => fail OutOfBounds
  | S cells' =>
      w <- load c ;;
      if truthy w then
        putc (int8 (Z.land w 255)) ;;;
        if Z.shiftr w 8 =? 0 then ret tt
        else
          putc (int8 (Z.land (Z.shiftr w 8) 255)) ;;;
          trap_PUTSP_loop cells' (c + 1)
      else ret tt
  end.

Definition trap_PUTSP : M unit :=
  r0 <- get_reg R_R0 ;;
  trap_PUTSP_loop (Z.to_nat (UINT16_MAX - r0)) r0 ;;;
  fflush.

(** [*running = 0] *)
Definition clear_running : M unit :=
  fun s => Ok tt (with_running false s).

Definition trap_HALT : M unit :=
  put_bytes [72; 65; 76; 84; 10] ;;;   (* puts("HALT") *)
  fflush ;;;
  clear_running.

(* ================================================================= *)
(** ** The fetch-execute loop of [main], lines 512-585 *)

(** [mem_read(reg[R_PC]++)]: the argument is the old PC, and PC is
    incremented before [mem_read] runs. *)
Definition fetch : M Z :=
  pc <- get_reg R_PC ;;
  set_reg R_PC (uint16 (pc + 1)) ;;;
  mem_read pc.

(** The inner switch of [case OP_TRAP]; an unlisted vector falls through
    the switch and does nothing. *)
Definition trap_dispatch (instr : Z) : M unit :=
  match Z.land instr 255 with
  | 32 => trap_GETC
  | 33 => trap_OUT
  | 34 => trap_PUTS
  | 35 => trap_IN
  | 36 => trap_PUTSP
  | 37 => trap_HALT
  | _ => ret tt
  end.

(** The outer switch on [op = instr >> 12]. *)
Definition execute (instr : Z) : M unit :=
  match Z.shiftr instr 12 with
  | 1 => op_ADD instr
  | 5 => op_AND instr
  | 9 => op_NOT instr
  | 0 => op_BR instr
  | 12 => op_JMP instr
  | 4 => op_JSR instr
  | 2 => op_LD instr
  | 10 => op_LDI instr
  | 6 => op_LDR instr
  | 14 => op_LEA instr
  | 3 => op_ST instr
  | 11 => op_STI instr
  | 7 => op_STR instr
  | 15 => trap_dispatch instr
  | _ => fail Abort
  end.

(** One turn of the [while (running)] loop. *)
Definition step : M unit :=
  instr <- fetch ;;
  execute instr.

Fixpoint run (fuel : nat) : M unit :=
  fun s =>
    if running s then
      match fuel with
      | O => Ok tt s
      | S fuel' => (step ;;; run fuel') s
      end
    else Ok tt s.

(* ================================================================= *)
(** ** The image loader, lines 137-154 *)

(** [fread(ptr, sizeof(uint16_t), nmemb, file)] on a little-endian host:
    the complete two-byte items read, in host byte order, and the rest of the
    file.  A trailing odd byte is no item; C leaves the value of the element
    it would start indeterminate, the model leaves that cell as it was. *)
Fixpoint fread16 (nmemb : Z) (file : list byte) : list Z * list byte :=
  match file with
  | lo :: hi :: rest =>
      if 0 <? nmemb then
        let (items, file') := fread16 (nmemb - 1) rest in
        ((byteZ lo + 256 * byteZ hi) :: items, file')
      else ([], file)
  | _ => ([], file)
  end.

(** The items [fread] stores through [p]. *)
Fixpoint store_items (p : Z) (items : list Z) : M unit :=
  match items with
  | [] => ret tt
  | w :: rest => store p w ;;; store_items (p + 1) rest
  end.

(** [while (read-- > 0) { *p = swap16( *p ); p++; }] *)
Fixpoint swap_loop (read : nat) (p : Z) : M unit :=
  match read with
  | O => ret tt
  | S read' =>
      w <- load p ;;
      store p (swap16 w) ;;;
      swap_loop read' (p + 1)
  end.

Definition read_image_file (file : list byte) : M unit :=
  match fread16 1 file with
  | ([w], file1) =>
      let origin := swap16 w in
      let max_read := uint16 (UINT16_MAX - origin) in
      let p := origin in
      let (items, _) := fread16 max_read file1 in
      store_items p items ;;;
      swap_loop (length items) p
  | _ => fail Uninitialised
  end.

(** Start-up of [main]: zeroed globals, the images loaded in order, PC set. *)
Definition zeroed (con : console) : machine :=
  mkMachine (fun _ => 0) (fun _ => 0) true con.

Fixpoint read_images (images : list (list byte)) : M unit :=
  match images with
  | [] => ret tt
  | file :: rest => read_image_file file ;;; read_images rest
  end.

Definition startup (images : list (list byte)) : M unit :=
  read_images images ;;;
  set_reg R_PC PC_START.

(** The states [main] is in at the top of its loop. *)
Inductive reachable : machine -> Prop :=
| reach_start images con s :
    startup images (zeroed con) = Ok tt s -> reachable s
| reach_step s s' :
    reachable s -> running s = true -> step s = Ok tt s' -> reachable s'.

(* ================================================================= *)
(** ** Sample machines *)

(** The state a computation ends in, [d] when it faults. *)
Definition final {A} (r : result A) (d : machine) : machine :=
  match r with
  | Ok _ s => s
  | Fault _ => d
  end.

(** A console with nothing typed and nothing printed. *)
Definition quiet : console := mkConsole [] false [].

(** [main] started on a one-word image at 0x3000. *)
Definition started (hi lo : byte) : machine :=
  final (startup [[x30; x00; hi; lo]] (zeroed quiet)) (zeroed quiet).

Definition add_demo : machine :=           (* 0x1220: ADD R1, R0, #0 *)
  with_reg (upd (reg (started x12 x20)) R_R0 5) (started x12 x20).
Definition br_demo : machine := started x0e x05.    (* 0x0E05: BRnzp #5 *)
Definition jsr_demo : machine := started x48 x02.   (* 0x4802: JSR #2 *)
Definition jsrr_demo : machine :=          (* 0x41C0: JSRR R7, R7 = 0x1234 *)
  with_reg (upd (reg (started x41 xc0)) R_R7 4660) (started x41 xc0).
Definition trap_demo : machine := started xf0 x21.  (* 0xF021: TRAP x21 *)

(** TRAP x24 at 0x3000, followed by the packed string "Hi!" (0x6948, 0x0021),
    with R0 pointing at the string. *)
Definition putsp_demo : machine :=
  let s := final (startup [[x30; x00; xf0; x24; x69; x48; x00; x21]] (zeroed quiet))
                 (zeroed quiet) in
  with_reg (upd (reg s) R_R0 12289) s.

(* ================================================================= *)
(** ** Vocabulary of the specification *)

(** The opcode and the register fields of an instruction word. *)
Definition opcode (instr : Z) : Z := Z.shiftr instr 12.
Definition DR_field (instr : Z) : Z := Z.land (Z.shiftr instr 9) 7.
Definition BaseR_field (instr : Z) : Z := Z.land (Z.shiftr instr 6) 7.

(** The opcodes whose instruction names a destination register. *)
Definition designates_DR (op : Z) : bool :=
  existsb (Z.eqb op) [OP_ADD; OP_AND; OP_NOT; OP_LD; OP_LDI; OP_LDR; OP_LEA].

(** The words of an image body as the specification reads them: each pair
    of bytes is one word, high byte first; a trailing odd byte is no word. *)
Fixpoint be_words (bs : list byte) : list Z :=
  match bs with
  | hi :: lo :: rest => (256 * byteZ hi + byteZ lo) :: be_words rest
  | _ => []
  end.

(** The machine after the bytes [cs] have been written to its output. *)
Definition emit (cs : list Z) (s : machine) : machine :=
  with_tty (mkConsole (stdin (tty s)) (stdin_eof (tty s)) (stdout (tty s) ++ cs)) s.

(** The [n] memory words from address [a] on. *)
Definition words_at (s : machine) (a : Z) (n : nat) : list Z :=
  map (fun i => memory s (a + Z.of_nat i)) (seq 0 n).

(** Bits 7..0 and bits 15..8 of a word. *)
Definition low_byte (w : Z) : Z := Z.land w 255.
Definition high_byte (w : Z) : Z := Z.land (Z.shiftr w 8) 255.

(** The bytes PUTSP is specified to write for a sequence of words: for each
    non-zero word its bits 7..0 and then, if bits 15..8 are not zero, bits
    15..8; nothing from the first zero word on, and nothing after a word whose
    high byte is zero. *)
Fixpoint putsp_bytes (ws : list Z) : list Z :=
  match ws with
  | [] => []
  | w :: rest =>
      if w =? 0 then []
      else low_byte w ::
           (if high_byte w =? 0 then []
            else high_byte w :: putsp_bytes rest)
  end.

(** The flag the specification gives a 16-bit word: Z for zero, N when bit
    15 is set, P otherwise. *)
Definition flag_of_word (v : Z) : Z :=
  if v =? 0 then FL_ZRO else if Z.testbit v 15 then FL_NEG else FL_POS.

(* ================================================================= *)
(** ** Well-formed states: every object of type [uint16_t] holds a 16-bit value *)

Definition wf_mem (m : Z -> Z) : Prop :=
  forall i, 0 <= i < UINT16_MAX -> 0 <= m i < 65536.

Definition wf_reg (r : Z -> Z) : Prop :=
  forall i, 0 <= i < R_COUNT -> 0 <= r i < 65536.

Definition wf (s : machine) : Prop := wf_mem (memory s) /\ wf_reg (reg s).

(* ================================================================= *)
(** * Properties *)

(** ** Machine integers *)

Lemma uint16_range (z : Z) : 0 <= uint16 z < 65536.
Proof. unfold uint16. apply Z.mod_pos_bound. lia. Qed.

Lemma uint16_small (z : Z) : 0 <= z < 65536 -> uint16 z = z.
Proof. intros H. unfold uint16. now apply Z.mod_small. Qed.

Lemma uint16_land (z : Z) : uint16 z = Z.land z 65535.
Proof. unfold uint16. change 65535 with (Z.ones 16). now rewrite Z.land_ones by lia. Qed.

Lemma int32_uint16 (z : Z) : uint16 (int32 z) = uint16 z.
Proof.
  unfold uint16, int32.
  pose proof (Z.div_mod (z + 2147483648) 4294967296 ltac:(lia)) as E.
  replace ((z + 2147483648) mod 4294967296 - 2147483648)
    with (z + (- 65536 * ((z + 2147483648) / 4294967296)) * 65536) by lia.
  apply Z_mod_plus_full.
Qed.

Lemma uint16_lor (a b : Z) : uint16 (Z.lor a b) = Z.lor (uint16 a) (uint16 b).
Proof. rewrite !uint16_land. apply Z.land_lor_distr_l. Qed.

Lemma land_1_testbit (x k : Z) :
  0 <= k -> Z.land (Z.shiftr x k) 1 = Z.b2z (Z.testbit x k).
Proof.
  intros Hk. change 1 with (Z.ones 1) at 1.
  rewrite Z.land_ones by lia. change (2 ^ 1) with 2.
  rewrite <- Z.bit0_mod, Z.shiftr_spec by lia. now rewrite Z.add_0_l.
Qed.

Lemma truthy_b2z (b : bool) : truthy (Z.b2z b) = b.
Proof. now destruct b. Qed.

(** The test and the assignment of [sign_extend], bit by bit: the width of
    [int] plays no part once the result is converted back to 16 bits. *)
Lemma sign_extend_bit (x n : Z) :
  1 <= n ->
  sign_extend x n =
    if Z.testbit x (n - 1) then uint16 (Z.lor x (Z.shiftl 65535 n)) else x.
Proof.
  intros Hn. unfold sign_extend.
  rewrite land_1_testbit, truthy_b2z by lia.
  destruct (Z.testbit x (n - 1)); [|reflexivity].
  now rewrite !uint16_lor, int32_uint16.
Qed.

(** C5. For every 16-bit [x] and every [n] in 1..16, [sign_extend x n] is [x]
    when bit [n-1] of [x] is 0, and [x | (0xFFFF << n)] truncated to 16 bits
    when bit [n-1] is 1. *)
Theorem sign_extend_spec (x n : Z) :
  0 <= x < 65536 -> 1 <= n <= 16 ->
  sign_extend x n =
    if Z.testbit x (n - 1)
    then (Z.lor x (Z.shiftl 65535 n)) mod 65536
    else x.
Proof. intros _ Hn. now rewrite sign_extend_bit by lia. Qed.

Lemma sign_extend_spec_witness :
  sign_extend 31 5 =
    if Z.testbit 31 (5 - 1) then (Z.lor 31 (Z.shiftl 65535 5)) mod 65536 else 31.
Proof. apply (sign_extend_spec 31 5); lia. Defined.

Lemma sign_extend_range (x n : Z) :
  0 <= x < 65536 -> 0 <= sign_extend x n < 65536.
Proof.
  intros Hx. unfold sign_extend.
  destruct (truthy _); [apply uint16_range | exact Hx].
Qed.

Lemma lor_disjoint_shiftl (x y n : Z) :
  0 <= n -> 0 <= x < 2 ^ n -> Z.lor x (Z.shiftl y n) = x + y * 2 ^ n.
Proof.
  intros Hn Hx.
  assert (D : Z.land x (Z.shiftl y n) = 0).
  { apply Z.bits_inj'. intros i Hi.
    rewrite Z.land_spec, Z.bits_0.
    destruct (Z.lt_ge_cases i n) as [Lt | Ge].
    - rewrite Z.shiftl_spec_low by lia. apply andb_false_r.
    - rewrite <- (Z.mod_small x (2 ^ n)) by lia.
      now rewrite Z.mod_pow2_bits_high by lia. }
  rewrite <- Z.lxor_lor, <- Z.add_nocarry_lxor by exact D.
  now rewrite Z.shiftl_mul_pow2 by lia.
Qed.

(** The value [sign_extend] computes: the low [n] bits of [x], read as a
    two's-complement number, as a 16-bit word. *)
Lemma sign_extend_twos_complement (x n : Z) :
  1 <= n <= 16 -> 0 <= x < 2 ^ n ->
  sign_extend x n = uint16 (if x <? 2 ^ (n - 1) then x else x - 2 ^ n).
Proof.
  intros Hn Hx.
  assert (P : 2 ^ n = 2 * 2 ^ (n - 1)).
  { rewrite <- Z.pow_succ_r by lia. f_equal. lia. }
  assert (Q : 2 ^ n <= 65536).
  { change 65536 with (2 ^ 16). apply Z.pow_le_mono_r; lia. }
  assert (R : 0 < 2 ^ (n - 1)) by (apply Z.pow_pos_nonneg; lia).
  rewrite sign_extend_bit by lia.
  destruct (Z.ltb_spec x (2 ^ (n - 1))) as [Lt | Ge].
  - replace (Z.testbit x (n - 1)) with false; [now rewrite uint16_small by lia|].
    symmetry. apply Z.testbit_false; [lia|].
    now rewrite Z.div_small by lia.
  - replace (Z.testbit x (n - 1)) with true.
    + rewrite lor_disjoint_shiftl by lia. unfold uint16.
      replace (x + 65535 * 2 ^ n) with (x - 2 ^ n + 2 ^ n * 65536) by lia.
      apply Z_mod_plus_full.
    + symmetry. apply Z.testbit_true; [lia|].
      replace (x / 2 ^ (n - 1)) with 1; [reflexivity|].
      apply Z.div_unique with (r := x - 2 ^ (n - 1)); lia.
Qed.

(* ================================================================= *)
(** ** Reasoning about computations *)

Lemma bind_Ok {A B} (m : M A) (k : A -> M B) (s s' : machine) (b : B) :
  bind m k s = Ok b s' ->
  exists a s1, m s = Ok a s1 /\ k a s1 = Ok b s'.
Proof.
  unfold bind. destruct (m s) as [a s1 | f]; [|discriminate].
  intros H. now exists a, s1.
Qed.

Lemma bind_eq {A B} (m : M A) (k : A -> M B) (s s1 : machine) (a : A) :
  m s = Ok a s1 -> bind m k s = k a s1.
Proof. unfold bind. now intros ->. Qed.

Lemma in_bounds_iff (i : Z) : in_bounds i = true <-> 0 <= i < UINT16_MAX.
Proof. unfold in_bounds. rewrite andb_true_iff, Z.leb_le, Z.ltb_lt. tauto. Qed.

Lemma load_Ok (i : Z) (s : machine) :
  0 <= i < UINT16_MAX -> load i s = Ok (memory s i) s.
Proof. intros H. unfold load. now rewrite (proj2 (in_bounds_iff i) H). Qed.

Lemma store_Ok (i v : Z) (s : machine) :
  0 <= i < UINT16_MAX -> store i v s = Ok tt (with_memory (upd (memory s) i v) s).
Proof. intros H. unfold store. now rewrite (proj2 (in_bounds_iff i) H). Qed.

Lemma upd_same (f : Z -> Z) (i v : Z) : upd f i v i = v.
Proof. unfold upd. now rewrite Z.eqb_refl. Qed.

Lemma upd_other (f : Z -> Z) (i j v : Z) : j <> i -> upd f i v j = f j.
Proof. intros H. unfold upd. now rewrite (proj2 (Z.eqb_neq j i) H). Qed.

(* ================================================================= *)
(** ** Memory access *)

(** Every address below [UINT16_MAX] names a cell of [memory]: a write
    there succeeds and changes that cell only. *)
Lemma mem_write_in_bounds (address value : Z) (s : machine) :
  0 <= address < UINT16_MAX ->
  exists s', mem_write address value s = Ok tt s' /\
             memory s' address = value /\
             (forall j, j <> address -> memory s' j = memory s j) /\
             reg s' = reg s /\ tty s' = tty s /\ running s' = running s.
Proof.
  intros H. unfold mem_write. rewrite store_Ok by exact H.
  eexists. split; [reflexivity|]. cbn.
  repeat split; [apply upd_same | intros j Hj; now apply upd_other].
Qed.

(** Reading an address other than KBSR that names a cell returns the cell
    and leaves the whole machine as it was. *)
Lemma mem_read_plain (address : Z) (s : machine) :
  0 <= address < UINT16_MAX -> address <> MR_KBSR ->
  mem_read address s = Ok (memory s address) s.
Proof.
  intros H N. unfold mem_read.
  rewrite (proj2 (Z.eqb_neq _ _) N). cbn. now apply load_Ok.
Qed.

(** Reading KBSR while a byte is waiting: KBSR becomes 0x8000, the byte is
    taken off the input and stored in KBDR, and the new KBSR is returned. *)
Lemma mem_read_KBSR_key (s : machine) (b : byte) (rest : list byte) :
  stdin (tty s) = b :: rest ->
  mem_read MR_KBSR s =
    Ok 32768
       (mkMachine (upd (upd (memory s) MR_KBSR 32768) MR_KBDR (byteZ b))
                  (reg s) (running s)
                  (mkConsole rest (stdin_eof (tty s)) (stdout (tty s)))).
Proof.
  intros E. unfold mem_read, bind, check_key, getchar, store, load. cbn.
  rewrite E. cbn. rewrite E. cbn.
  assert (B : 0 <= byteZ b < 65536).
  { unfold byteZ. pose proof (Byte.to_N_bounded b). lia. }
  now rewrite uint16_small by exact B.
Qed.

(** Reading KBSR with nothing waiting on an open input: KBSR becomes 0 and 0
    is returned; no byte is consumed. *)
Lemma mem_read_KBSR_no_key (s : machine) :
  stdin (tty s) = [] -> stdin_eof (tty s) = false ->
  mem_read MR_KBSR s =
    Ok 0 (with_memory (upd (memory s) MR_KBSR 0) s).
Proof.
  intros E F. unfold mem_read, bind, check_key, store, load. cbn.
  rewrite E, F. reflexivity.
Qed.

(** Reading KBSR at the end of a closed input: [select] reports the
    descriptor readable, [getchar] returns [EOF], and KBDR receives 0xFFFF. *)
Lemma mem_read_KBSR_eof (s : machine) :
  stdin (tty s) = [] -> stdin_eof (tty s) = true ->
  mem_read MR_KBSR s =
    Ok 32768
       (with_memory (upd (upd (memory s) MR_KBSR 32768) MR_KBDR 65535) s).
Proof.
  intros E F. unfold mem_read, bind, check_key, getchar, store, load. cbn.
  rewrite E, F. cbn. rewrite E, F. reflexivity.
Qed.

(** The three cases of [mem_read] together, for the addresses that name a
    cell of [memory]. *)
Lemma mem_read_in_bounds (address : Z) (s : machine) :
  0 <= address < UINT16_MAX ->
  (address = MR_KBSR ->
   forall b rest, stdin (tty s) = b :: rest ->
     exists s', mem_read address s = Ok (memory s' MR_KBSR) s' /\
                memory s' MR_KBSR = 32768 /\ memory s' MR_KBDR = byteZ b /\
                stdin (tty s') = rest) /\
  (address = MR_KBSR ->
   stdin (tty s) = [] -> stdin_eof (tty s) = false ->
     exists s', mem_read address s = Ok 0 s' /\ memory s' MR_KBSR = 0 /\
                stdin (tty s') = []) /\
  (address <> MR_KBSR -> mem_read address s = Ok (memory s address) s).
Proof.
  intros B. split; [|split].
  - intros -> b rest E. rewrite (mem_read_KBSR_key s b rest E).
    match goal with |- exists s', Ok _ ?x = _ /\ _ => exists x end.
    now repeat split.
  - intros -> E F. rewrite (mem_read_KBSR_no_key s E F).
    eexists. split; [reflexivity|]. cbn. now split.
  - intros N. now apply mem_read_plain.
Qed.

(** C2. [memory] is declared with [UINT16_MAX] = 65,535 cells, indexed
    0x0000..0xFFFE, so address 0xFFFF names no cell of the array: both
    [mem_read] and [mem_write] index out of bounds there, where the
    specification has 65,536 cells and a valid access at 0xFFFF. *)
Theorem memory_has_no_cell_0xFFFF (s : machine) (value : Z) :
  in_bounds 65535 = false /\
  mem_read 65535 s = Fault OutOfBounds /\
  mem_write 65535 value s = Fault OutOfBounds.
Proof. repeat split. Qed.

(** C6. [mem_read] of the address 0xFFFF, which is not KBSR, does not
    return a memory cell: the read indexes [memory] past its last cell
    0xFFFE.  Every other address behaves as specified, see [mem_read_plain],
    [mem_read_KBSR_key] and [mem_read_KBSR_no_key]. *)
Theorem mem_read_0xFFFF_faults (s : machine) :
  65535 <> MR_KBSR /\ mem_read 65535 s = Fault OutOfBounds.
Proof. split; [discriminate | reflexivity]. Qed.

(* ================================================================= *)
(** ** Well-formed states *)

Lemma wf_mem_upd (m : Z -> Z) (i v : Z) :
  wf_mem m -> 0 <= v < 65536 -> wf_mem (upd m i v).
Proof.
  intros W V j Hj. unfold upd. destruct (j =? i); [exact V | now apply W].
Qed.

Lemma wf_reg_upd (r : Z -> Z) (i v : Z) :
  wf_reg r -> 0 <= v < 65536 -> wf_reg (upd r i v).
Proof.
  intros W V j Hj. unfold upd. destruct (j =? i); [exact V | now apply W].
Qed.

Lemma wf_zeroed (con : console) : wf (zeroed con).
Proof. split; intros i _; cbn; lia. Qed.

Lemma field3_range (x : Z) : 0 <= Z.land x 7 < 8.
Proof.
  change 7 with (Z.ones 3). rewrite Z.land_ones by lia.
  apply Z.mod_pos_bound. lia.
Qed.

Lemma byteZ_range (b : byte) : 0 <= byteZ b < 256.
Proof. unfold byteZ. pose proof (Byte.to_N_bounded b). lia. Qed.

Create HintDb vm.
#[local] Hint Resolve wf_mem_upd wf_reg_upd uint16_range sign_extend_range : vm.

(** Inversion of the primitive computations. *)
Lemma get_reg_Ok (r v : Z) (s s1 : machine) :
  get_reg r s = Ok v s1 -> v = reg s r /\ s1 = s.
Proof. unfold get_reg. intros H. now inversion H. Qed.

Lemma set_reg_Ok (r v : Z) (u : unit) (s s1 : machine) :
  set_reg r v s = Ok u s1 -> s1 = with_reg (upd (reg s) r v) s.
Proof. unfold set_reg. intros H. now inversion H. Qed.

Lemma ret_Ok {A} (a b : A) (s s1 : machine) :
  ret a s = Ok b s1 -> b = a /\ s1 = s.
Proof. unfold ret. intros H. now inversion H. Qed.

Lemma load_inv (i v : Z) (s s1 : machine) :
  load i s = Ok v s1 -> 0 <= i < UINT16_MAX /\ v = memory s i /\ s1 = s.
Proof.
  unfold load. destruct (in_bounds i) eqn:B; [|discriminate].
  apply in_bounds_iff in B. intros H. now inversion H.
Qed.

Lemma store_inv (i v : Z) (u : unit) (s s1 : machine) :
  store i v s = Ok u s1 ->
  0 <= i < UINT16_MAX /\ s1 = with_memory (upd (memory s) i v) s.
Proof.
  unfold store. destruct (in_bounds i) eqn:B; [|discriminate].
  apply in_bounds_iff in B. intros H. now inversion H.
Qed.

Lemma clear_running_Ok (u : unit) (s s1 : machine) :
  clear_running s = Ok u s1 -> s1 = with_running false s.
Proof. unfold clear_running. intros H. now inversion H. Qed.

Lemma putc_Ok (c : Z) (u : unit) (s s1 : machine) :
  putc c s = Ok u s1 ->
  memory s1 = memory s /\ reg s1 = reg s /\ running s1 = running s /\
  stdin (tty s1) = stdin (tty s) /\ stdout (tty s1) = stdout (tty s) ++ [c mod 256].
Proof. unfold putc. intros H. now inversion H. Qed.

Lemma getchar_Ok (c : Z) (s s1 : machine) :
  getchar s = Ok c s1 ->
  memory s1 = memory s /\ reg s1 = reg s /\ running s1 = running s /\
  stdout (tty s1) = stdout (tty s) /\ -1 <= c < 256.
Proof.
  unfold getchar. destruct (stdin (tty s)) as [|b rest].
  - destruct (stdin_eof (tty s)); [|discriminate].
    intros H. inversion H. subst. repeat split; lia.
  - intros H. inversion H. subst. cbn. pose proof (byteZ_range b).
    repeat split; lia.
Qed.

(** What a successful [mem_read] leaves behind: registers, the loop flag and
    the output are untouched, memory stays well formed and the value read is
    a 16-bit word. *)
Lemma mem_read_Ok (address v : Z) (s s1 : machine) :
  mem_read address s = Ok v s1 ->
  reg s1 = reg s /\ running s1 = running s /\
  stdout (tty s1) = stdout (tty s) /\
  (wf_mem (memory s) -> wf_mem (memory s1) /\ 0 <= v < 65536).
Proof.
  unfold mem_read. destruct (Z.eqb_spec address MR_KBSR) as [-> | N].
  - unfold bind, check_key, getchar, store, load. cbn.
    destruct (stdin (tty s)) as [|b rest] eqn:E;
      [destruct (stdin_eof (tty s)) eqn:F|];
      cbn; rewrite ?E, ?F; cbn; intros H; inversion H; subst; cbn;
      (split; [|split; [|split]]); trivial; intros W; (split; [|lia]).
    + apply wf_mem_upd; [now apply wf_mem_upd | lia].
    + now apply wf_mem_upd.
    + apply wf_mem_upd; [now apply wf_mem_upd | apply uint16_range].
  - intros H. apply bind_Ok in H. destruct H as (u & s0 & H0 & H).
    apply ret_Ok in H0. destruct H0 as [_ ->].
    apply load_inv in H. destruct H as (B & -> & ->).
    repeat split; trivial; now apply H.
Qed.

Arguments bind : simpl never.
Arguments ret : simpl never.
Arguments fail : simpl never.
Arguments load : simpl never.
Arguments store : simpl never.
Arguments get_reg : simpl never.
Arguments set_reg : simpl never.
Arguments putc : simpl never.
Arguments put_bytes : simpl never.
Arguments getchar : simpl never.
Arguments check_key : simpl never.
Arguments mem_read : simpl never.
Arguments mem_write : simpl never.
Arguments update_flags : simpl never.
Arguments fflush : simpl never.
Arguments upd : simpl never.
Arguments clear_running : simpl never.

(** [vm_inv] takes a successful run apart into the runs of its primitive
    steps and records what each of them did. *)
Ltac vm_inv :=
  repeat match goal with
    | H : bind _ _ _ = Ok _ _ |- _ =>
        let a := fresh "a" in
        let s := fresh "s" in
        let H1 := fresh "H" in
        apply bind_Ok in H; destruct H as (a & s & H1 & H); cbv beta in H
    | H : get_reg _ _ = Ok _ _ |- _ =>
        apply get_reg_Ok in H; destruct H as [? ?]; subst
    | H : set_reg _ _ _ = Ok _ _ |- _ => apply set_reg_Ok in H; subst
    | H : ret _ _ = Ok _ _ |- _ => apply ret_Ok in H; destruct H as [_ ?]; subst
    | H : fflush _ = Ok _ _ |- _ =>
        apply ret_Ok in H; destruct H as [_ ?]; subst
    | H : fail _ _ = Ok _ _ |- _ => discriminate H
    | H : clear_running _ = Ok _ _ |- _ => apply clear_running_Ok in H; subst
    | H : load _ _ = Ok _ _ |- _ =>
        apply load_inv in H; destruct H as (? & ? & ?); subst
    | H : store _ _ _ = Ok _ _ |- _ =>
        apply store_inv in H; destruct H as (? & ?); subst
    | H : mem_write _ _ _ = Ok _ _ |- _ =>
        apply store_inv in H; destruct H as (? & ?); subst
    | H : putc _ _ = Ok _ _ |- _ =>
        apply putc_Ok in H; destruct H as (? & ? & ? & ? & ?)
    | H : getchar _ = Ok _ _ |- _ =>
        apply getchar_Ok in H; destruct H as (? & ? & ? & ? & ?)
    | H : mem_read _ _ = Ok _ _ |- _ =>
        apply mem_read_Ok in H; destruct H as (? & ? & ? & ?)
    | H : (if ?b then _ else _) _ = Ok _ _ |- _ => destruct b eqn:?
    end.

Lemma put_bytes_Ok (cs : list Z) (u : unit) (s s1 : machine) :
  put_bytes cs s = Ok u s1 ->
  memory s1 = memory s /\ reg s1 = reg s /\ running s1 = running s /\
  stdin (tty s1) = stdin (tty s) /\ stdout (tty s1) = stdout (tty s) ++ cs.
Proof. unfold put_bytes. intros H. now inversion H. Qed.

(** The string loops only write to the output. *)
Lemma trap_PUTS_loop_frame (cells : nat) :
  forall (c : Z) (u : unit) (s s1 : machine),
    trap_PUTS_loop cells c s = Ok u s1 ->
    memory s1 = memory s /\ reg s1 = reg s /\ running s1 = running s.
Proof.
  induction cells as [|cells IH]; intros c u s s1 H; cbn in H; vm_inv; auto.
  apply IH in H. destruct H as (-> & -> & ->). auto.
Qed.

Lemma trap_PUTSP_loop_frame (cells : nat) :
  forall (c : Z) (u : unit) (s s1 : machine),
    trap_PUTSP_loop cells c s = Ok u s1 ->
    memory s1 = memory s /\ reg s1 = reg s /\ running s1 = running s.
Proof.
  induction cells as [|cells IH]; intros c u s s1 H; cbn in H; vm_inv; auto.
  apply IH in H. destruct H as (-> & -> & ->). repeat split; congruence.
Qed.

(* ================================================================= *)
(** ** Condition flags *)

Lemma truthy_shiftr_15 (v : Z) :
  0 <= v < 65536 -> truthy (Z.shiftr v 15) = Z.testbit v 15.
Proof.
  intros H. rewrite Z.testbit_odd, Z.shiftr_div_pow2 by lia.
  change (2 ^ 15) with 32768.
  assert (Q : v / 32768 = 0 \/ v / 32768 = 1).
  { assert (0 <= v / 32768 < 2); [|lia].
    split; [apply Z.div_pos; lia | apply Z.div_lt_upper_bound; lia]. }
  destruct Q as [-> | ->]; reflexivity.
Qed.

Lemma flag_of_word_one_hot (v : Z) :
  flag_of_word v = FL_NEG \/ flag_of_word v = FL_ZRO \/ flag_of_word v = FL_POS.
Proof.
  unfold flag_of_word. destruct (v =? 0); [|destruct (Z.testbit v 15)]; auto.
Qed.

(** [update_flags r] on a register holding a 16-bit value writes the flag of
    that value into COND and nothing else. *)
Lemma update_flags_Ok (r : Z) (s : machine) :
  0 <= reg s r < 65536 ->
  update_flags r s =
    Ok tt (with_reg (upd (reg s) R_COND (flag_of_word (reg s r))) s).
Proof.
  intros H. unfold update_flags, bind, get_reg, set_reg, flag_of_word.
  rewrite truthy_shiftr_15 by exact H.
  destruct (reg s r =? 0); [|destruct (Z.testbit (reg s r) 15)]; reflexivity.
Qed.

Lemma update_flags_inv (r : Z) (u : unit) (s s' : machine) :
  update_flags r s = Ok u s' -> wf s -> 0 <= r < 8 ->
  wf s' /\ reg s' R_COND = flag_of_word (reg s' r) /\
  memory s' = memory s /\ tty s' = tty s /\ running s' = running s /\
  (forall j, j <> R_COND -> reg s' j = reg s j).
Proof.
  intros H [Wm Wr] Hr.
  assert (V : 0 <= reg s r < 65536) by (apply Wr; unfold R_COUNT; lia).
  rewrite update_flags_Ok in H by exact V. inversion H. subst. cbn.
  assert (N : r <> R_COND) by (unfold R_COND; lia).
  rewrite upd_same, upd_other by exact N.
  split; [split; cbn; [exact Wm|] | repeat split].
  - apply wf_reg_upd; [exact Wr|].
    destruct (flag_of_word_one_hot (reg s r)) as [-> | [-> | ->]]; cbv; split;
      congruence.
  - intros j Hj. now apply upd_other.
Qed.

Lemma write_then_flags (DR v : Z) (u : unit) (s1 s' : machine) :
  update_flags DR (with_reg (upd (reg s1) DR v) s1) = Ok u s' ->
  wf_mem (memory s1) -> wf_reg (reg s1) -> 0 <= v < 65536 -> 0 <= DR < 8 ->
  wf s' /\ reg s' R_COND = flag_of_word (reg s' DR) /\
  reg s' DR = v /\ memory s' = memory s1 /\ tty s' = tty s1 /\
  running s' = running s1.
Proof.
  intros H Wm Wr V D.
  apply update_flags_inv in H; [|split; cbn; auto with vm | exact D].
  destruct H as (W & C & Em & Et & Er & F). cbn in *.
  split; [exact W|]. repeat split; trivial.
  rewrite F by (unfold R_COND; lia). apply upd_same.
Qed.

Lemma wf_reg_field (r : Z -> Z) (x : Z) :
  wf_reg r -> 0 <= r (Z.land x 7) < 65536.
Proof.
  intros W. apply W. pose proof (field3_range x). unfold R_COUNT. lia.
Qed.

Lemma wf_reg_PC (r : Z -> Z) : wf_reg r -> 0 <= r R_PC < 65536.
Proof. intros W. apply W. unfold R_COUNT, R_PC. lia. Qed.

#[local] Hint Resolve wf_reg_field wf_reg_PC field3_range : vm.

Ltac vm_side :=
  match goal with
  | W : wf _ |- _ => pose proof W as [?Wm ?Wr]
  | _ => idtac
  end;
  cbn in *;
  repeat match goal with
    | H : wf_mem ?m -> _, W : wf_mem ?m |- _ => specialize (H W); destruct H
    | H : reg ?a = _ |- _ => is_var a; rewrite H in *; clear H
    | H : memory ?a = _ |- _ => is_var a; rewrite H in *; clear H
    end;
  auto with vm.

Ltac vm_flags H :=
  vm_inv; (apply write_then_flags in H; [tauto | vm_side ..]).

Ltac vm_frame :=
  vm_inv;
  (split;
   [ split; vm_side
   | vm_side; cbn; rewrite ?upd_other by discriminate; congruence ]).

(** Each instruction on a well-formed state: it either sets COND from the
    register it wrote, or keeps COND; either way the state stays well formed. *)
Section Instructions.
Variables (instr : Z) (s s' : machine).
Hypothesis W : wf s.

Local Abbreviation flags_set :=
  (wf s' /\ reg s' R_COND = flag_of_word (reg s' (DR_field instr))).
Local Abbreviation flags_kept :=
  (wf s' /\ reg s' R_COND = reg s R_COND).

Lemma op_ADD_flags : op_ADD instr s = Ok tt s' -> flags_set.
Proof. intros H. unfold op_ADD in H. vm_flags H. Qed.

Lemma op_AND_flags : op_AND instr s = Ok tt s' -> flags_set.
Proof. intros H. unfold op_AND in H. vm_flags H. Qed.

Lemma op_NOT_flags : op_NOT instr s = Ok tt s' -> flags_set.
Proof. intros H. unfold op_NOT in H. vm_flags H. Qed.

Lemma op_LD_flags : op_LD instr s = Ok tt s' -> flags_set.
Proof. intros H. unfold op_LD in H. vm_flags H. Qed.

Lemma op_LDI_flags : op_LDI instr s = Ok tt s' -> flags_set.
Proof. intros H. unfold op_LDI in H. vm_flags H. Qed.

Lemma op_LDR_flags : op_LDR instr s = Ok tt s' -> flags_set.
Proof. intros H. unfold op_LDR in H. vm_flags H. Qed.

Lemma op_LEA_flags : op_LEA instr s = Ok tt s' -> flags_set.
Proof. intros H. unfold op_LEA in H. vm_flags H. Qed.

Lemma op_BR_frame : op_BR instr s = Ok tt s' -> flags_kept.
Proof. intros H. unfold op_BR in H. vm_frame. Qed.

Lemma op_JMP_frame : op_JMP instr s = Ok tt s' -> flags_kept.
Proof. intros H. unfold op_JMP in H. vm_frame. Qed.

Lemma op_JSR_frame : op_JSR instr s = Ok tt s' -> flags_kept.
Proof. intros H. unfold op_JSR in H. vm_frame. Qed.

Lemma op_ST_frame : op_ST instr s = Ok tt s' -> flags_kept.
Proof. intros H. unfold op_ST in H. vm_frame. Qed.

Lemma op_STI_frame : op_STI instr s = Ok tt s' -> flags_kept.
Proof. intros H. unfold op_STI in H. vm_frame. Qed.

Lemma op_STR_frame : op_STR instr s = Ok tt s' -> flags_kept.
Proof. intros H. unfold op_STR in H. vm_frame. Qed.
End Instructions.

(* ================================================================= *)
(** ** Trap routines leave every register but R0 alone *)

Ltac vm_inv_io :=
  vm_inv;
  repeat match goal with
    | H : put_bytes _ _ = Ok _ _ |- _ =>
        apply put_bytes_Ok in H; destruct H as (? & ? & ? & ? & ?)
    | H : trap_PUTS_loop _ _ _ = Ok _ _ |- _ =>
        apply trap_PUTS_loop_frame in H; destruct H as (? & ? & ?)
    | H : trap_PUTSP_loop _ _ _ = Ok _ _ |- _ =>
        apply trap_PUTSP_loop_frame in H; destruct H as (? & ? & ?)
    end.

Section Traps.
Variables (s s' : machine).
Hypothesis W : wf s.

Local Abbreviation trap_frame :=
  (wf s' /\ memory s' = memory s /\
   forall j, j <> R_R0 -> reg s' j = reg s j).

Lemma trap_GETC_frame : trap_GETC s = Ok tt s' -> trap_frame.
Proof.
  intros H. unfold trap_GETC in H. vm_inv.
  split; [split; vm_side | split; vm_side].
  intros j Hj. apply upd_other. exact Hj.
Qed.

Lemma trap_OUT_frame : trap_OUT s = Ok tt s' -> trap_frame.
Proof.
  intros H. unfold trap_OUT in H. vm_inv.
  split; [split; vm_side | split; vm_side].
Qed.

Lemma trap_PUTS_frame : trap_PUTS s = Ok tt s' -> trap_frame.
Proof.
  intros H. unfold trap_PUTS in H. vm_inv_io.
  split; [split; vm_side | split; vm_side].
Qed.

Lemma trap_IN_frame : trap_IN s = Ok tt s' -> trap_frame.
Proof.
  intros H. unfold trap_IN in H. vm_inv_io.
  split; [split; vm_side | split; vm_side].
  intros j Hj. apply upd_other. exact Hj.
Qed.

Lemma trap_PUTSP_frame : trap_PUTSP s = Ok tt s' -> trap_frame.
Proof.
  intros H. unfold trap_PUTSP in H. vm_inv_io.
  split; [split; vm_side | split; vm_side].
Qed.

Lemma trap_HALT_frame : trap_HALT s = Ok tt s' -> trap_frame.
Proof.
  intros H. unfold trap_HALT in H. vm_inv_io.
  split; [split; vm_side | split; vm_side].
Qed.

Lemma trap_dispatch_frame (instr : Z) :
  trap_dispatch instr s = Ok tt s' -> trap_frame.
Proof.
  intros H. unfold trap_dispatch in H.
  repeat match type of H with
    | context [match ?x with _ => _ end] => destruct x; cbv beta iota in H
    end;
    first [ apply ret_Ok in H; destruct H as [_ ->]; now auto
          | now apply trap_GETC_frame | now apply trap_OUT_frame
          | now apply trap_PUTS_frame | now apply trap_IN_frame
          | now apply trap_PUTSP_frame | now apply trap_HALT_frame ].
Qed.
End Traps.

(* ================================================================= *)
(** ** One instruction *)

(** Case analysis on the opcode the way the switch of [main] sees it: the
    fifteen listed cases are left, the default [abort()] is discharged. *)
Ltac by_opcode H :=
  unfold execute in H;
  match type of H with
  | context [match ?x with _ => _ end] =>
      let E := fresh "Eop" in
      destruct x as [|p|p] eqn:E;
      [ | repeat (destruct p as [p|p|]; cbv beta iota in H; try discriminate H) | ];
      try discriminate H
  end.

Lemma execute_cases (instr : Z) (s s' : machine) :
  wf s -> execute instr s = Ok tt s' ->
  wf s' /\
  ((designates_DR (opcode instr) = true /\
    reg s' R_COND = flag_of_word (reg s' (DR_field instr))) \/
   (designates_DR (opcode instr) = false /\
    reg s' R_COND = reg s R_COND)).
Proof.
  intros W H. unfold opcode. by_opcode H.
  all: first
         [ apply (op_ADD_flags instr s s' W) in H
         | apply (op_AND_flags instr s s' W) in H
         | apply (op_NOT_flags instr s s' W) in H
         | apply (op_LD_flags instr s s' W) in H
         | apply (op_LDI_flags instr s s' W) in H
         | apply (op_LDR_flags instr s s' W) in H
         | apply (op_LEA_flags instr s s' W) in H
         | apply (op_BR_frame instr s s' W) in H
         | apply (op_JMP_frame instr s s' W) in H
         | apply (op_JSR_frame instr s s' W) in H
         | apply (op_ST_frame instr s s' W) in H
         | apply (op_STI_frame instr s s' W) in H
         | apply (op_STR_frame instr s s' W) in H
         | apply (trap_dispatch_frame s s' W instr) in H ].
  all: destruct H as [W' H]; (split; [exact W'|]).
  all: first [ left; split; [reflexivity | exact H]
             | right; split; [reflexivity|]; try exact H ].
  destruct H as [_ H]. apply H. discriminate.
Qed.

Lemma execute_wf (instr : Z) (s s' : machine) :
  wf s -> execute instr s = Ok tt s' -> wf s'.
Proof. intros W H. now apply (execute_cases instr s s' W) in H. Qed.

(** C3. Executing an instruction that designates a destination register
    (ADD, AND, NOT, LD, LDI, LDR, LEA) leaves COND with exactly one of
    N = 0b100, Z = 0b010, P = 0b001: Z if the new value of DR is zero, N if its
    bit 15 is set, P otherwise.  Every other instruction leaves COND as it
    was.  (An execution that faults or aborts has no final state.) *)
Theorem flags_after_execute (instr : Z) (s s' : machine) :
  wf s -> execute instr s = Ok tt s' ->
  if designates_DR (opcode instr)
  then reg s' R_COND = flag_of_word (reg s' (DR_field instr)) /\
       (reg s' R_COND = 4 \/ reg s' R_COND = 2 \/ reg s' R_COND = 1)
  else reg s' R_COND = reg s R_COND.
Proof.
  intros W H. apply (execute_cases instr s s' W) in H.
  destruct H as [_ [[-> H] | [-> H]]]; [|exact H].
  split; [exact H|]. rewrite H.
  exact (flag_of_word_one_hot (reg s' (DR_field instr))).
Qed.

(* ================================================================= *)
(** ** Fetch *)

(** A successful fetch has moved PC on by one, modulo 2^16, and touched no
    other register. *)
Lemma fetch_Ok (instr : Z) (s s1 : machine) :
  fetch s = Ok instr s1 ->
  reg s1 = upd (reg s) R_PC (uint16 (reg s R_PC + 1)) /\
  running s1 = running s /\
  (wf s -> wf s1 /\ 0 <= instr < 65536).
Proof.
  intros H. unfold fetch in H. vm_inv. cbn in *.
  split; [assumption|]. split; [assumption|].
  intros [Wm Wr]. destruct (H2 Wm) as [Wm1 Hi].
  split; [split; [exact Wm1 | rewrite H; auto with vm] | exact Hi].
Qed.

Lemma step_eq (instr : Z) (s s1 : machine) :
  fetch s = Ok instr s1 -> step s = execute instr s1.
Proof. intros H. unfold step. now rewrite (bind_eq _ _ _ _ _ H). Qed.

Lemma execute_eq (instr op : Z) :
  opcode instr = op ->
  execute instr =
    match op with
    | 1 => op_ADD instr | 5 => op_AND instr | 9 => op_NOT instr
    | 0 => op_BR instr | 12 => op_JMP instr | 4 => op_JSR instr
    | 2 => op_LD instr | 10 => op_LDI instr | 6 => op_LDR instr
    | 14 => op_LEA instr | 3 => op_ST instr | 11 => op_STI instr
    | 7 => op_STR instr | 15 => trap_dispatch instr
    | _ => fail Abort
    end.
Proof. intros <-. reflexivity. Qed.

(** The flags after one whole turn of the loop, fetch included: the fetch
    leaves COND alone, so the turn sets or keeps COND as its instruction
    does. *)
Lemma flags_after_step (instr : Z) (s s1 s' : machine) :
  wf s -> fetch s = Ok instr s1 -> step s = Ok tt s' ->
  if designates_DR (opcode instr)
  then reg s' R_COND = flag_of_word (reg s' (DR_field instr))
  else reg s' R_COND = reg s R_COND.
Proof.
  intros W F H. rewrite (step_eq _ _ _ F) in H.
  apply fetch_Ok in F. destruct F as (R & _ & F). destruct (F W) as [W1 _].
  destruct (execute_cases _ _ _ W1 H) as [_ [[-> C] | [-> C]]]; [exact C|].
  rewrite C, R. now apply upd_other.
Qed.

(* ================================================================= *)
(** ** JSR and JSRR *)

(** [op_JSR] never fails; it writes R7 first and PC second. *)
Lemma op_JSR_Ok (instr : Z) (s : machine) :
  op_JSR instr s =
    let s1 := with_reg (upd (reg s) R_R7 (reg s R_PC)) s in
    Ok tt (with_reg
             (upd (reg s1) R_PC
                  (if Z.testbit instr 11
                   then uint16 (reg s1 R_PC + sign_extend (Z.land instr 2047) 11)
                   else reg s1 (BaseR_field instr)))
             s1).
Proof.
  unfold op_JSR, bind, get_reg, set_reg, BaseR_field.
  rewrite land_1_testbit, truthy_b2z by lia.
  destruct (Z.testbit instr 11); reflexivity.
Qed.

(** C8. Executing JSR first saves the post-fetch PC, the address of the
    instruction after the JSR, into R7 and only then updates PC: to PC plus
    the sign-extended PCoffset11 when bit 11 of the instruction is set, to the
    value of register BaseR (bits 8..6) when bit 11 is clear.  BaseR is read
    after the save: it still holds what it held before the instruction,
    unless it is R7 itself. *)
Theorem JSR_saves_PC_then_jumps (instr : Z) (s s1 : machine) :
  fetch s = Ok instr s1 -> opcode instr = OP_JSR ->
  let pc := uint16 (reg s R_PC + 1) in
  exists s',
    step s = Ok tt s' /\
    reg s1 R_PC = pc /\
    reg s' R_R7 = pc /\
    reg s' R_PC =
      (if Z.testbit instr 11
       then uint16 (pc + sign_extend (Z.land instr 2047) 11)
       else if BaseR_field instr =? R_R7 then pc
            else reg s (BaseR_field instr)).
Proof.
  intros F E pc. unfold OP_JSR in E.
  rewrite (step_eq _ _ _ F), (execute_eq _ _ E). cbv beta iota.
  rewrite op_JSR_Ok. cbv zeta.
  apply fetch_Ok in F. destruct F as (R & _).
  assert (P : reg s1 R_PC = pc) by (rewrite R; apply upd_same).
  eexists. split; [reflexivity|]. cbn [reg with_reg].
  rewrite upd_same, (upd_other _ R_PC R_R7), upd_same, (upd_other _ R_R7 R_PC)
    by discriminate.
  rewrite P. split; [reflexivity|]. split; [reflexivity|].
  destruct (Z.testbit instr 11); [reflexivity|].
  destruct (Z.eqb_spec (BaseR_field instr) R_R7) as [-> | N].
  - apply upd_same.
  - rewrite upd_other, R, upd_other; trivial.
    pose proof (field3_range (Z.shiftr instr 6)) as B.
    unfold BaseR_field, R_PC. lia.
Qed.

(** C10. Executing JSRR (JSR with bit 11 clear) with BaseR = R7 sets PC to
    the post-fetch PC of the JSR instruction itself, the return address just
    saved: R7 is overwritten with PC before PC is read from BaseR, so the
    value R7 held before the instruction is lost. *)
Theorem JSRR_R7_jumps_to_saved_PC (instr : Z) (s s1 : machine) :
  fetch s = Ok instr s1 -> opcode instr = OP_JSR ->
  Z.testbit instr 11 = false -> BaseR_field instr = R_R7 ->
  exists s',
    step s = Ok tt s' /\
    reg s' R_PC = uint16 (reg s R_PC + 1) /\
    reg s' R_R7 = uint16 (reg s R_PC + 1).
Proof.
  intros F E B7 R7. unfold OP_JSR in E.
  rewrite (step_eq _ _ _ F), (execute_eq _ _ E). cbv beta iota.
  rewrite op_JSR_Ok. cbv zeta. rewrite B7, R7.
  apply fetch_Ok in F. destruct F as (R & _).
  eexists. split; [reflexivity|]. cbn.
  rewrite upd_same, (upd_other _ R_PC R_R7), !upd_same by discriminate.
  rewrite R, upd_same. auto.
Qed.

(* ================================================================= *)
(** ** The image loader *)

Lemma list_pair_ind {A} (P : list A -> Prop) :
  P [] -> (forall x, P [x]) -> (forall x y l, P l -> P (x :: y :: l)) ->
  forall l, P l.
Proof.
  intros P0 P1 P2 l.
  enough (H : P l /\ forall x, P (x :: l)) by apply H.
  induction l as [|y l [IH1 IH2]]; split; auto.
Qed.

Lemma swap16_bytes (lo hi : Z) :
  0 <= lo < 256 -> 0 <= hi < 256 ->
  swap16 (lo + 256 * hi) = 256 * lo + hi.
Proof.
  intros Hl Hh. unfold swap16.
  assert (R : Z.shiftr (lo + 256 * hi) 8 = hi).
  { rewrite Z.shiftr_div_pow2 by lia. change (2 ^ 8) with 256.
    symmetry. apply Z.div_unique with (r := lo); lia. }
  rewrite R, Z.lor_comm, lor_disjoint_shiftl by lia.
  change (2 ^ 8) with 256. unfold uint16.
  replace (hi + (lo + 256 * hi) * 256) with (256 * lo + hi + hi * 65536) by lia.
  rewrite Z_mod_plus_full. apply Z.mod_small. lia.
Qed.

Lemma swap16_range (x : Z) : 0 <= swap16 x < 65536.
Proof. apply uint16_range. Qed.

(** What [fread] delivers, item by item, in terms of the words of the file. *)
Lemma fread16_items (file : list byte) :
  forall nmemb,
    map swap16 (fst (fread16 nmemb file)) =
      firstn (Z.to_nat nmemb) (be_words file).
Proof.
  induction file as [| x | lo hi rest IH] using list_pair_ind; intros nmemb.
  - cbn. now rewrite firstn_nil.
  - cbn. now rewrite firstn_nil.
  - cbn [fread16 be_words]. destruct (Z.ltb_spec 0 nmemb) as [Pos | Neg].
    + specialize (IH (nmemb - 1)).
      destruct (fread16 (nmemb - 1) rest) as [items file'].
      replace (Z.to_nat nmemb) with (S (Z.to_nat (nmemb - 1))) by lia.
      cbn [fst map firstn] in *. rewrite IH. f_equal.
      apply swap16_bytes; apply byteZ_range.
    + replace (Z.to_nat nmemb) with O by lia. reflexivity.
Qed.

Lemma fread16_one (b0 b1 : byte) (rest : list byte) :
  fread16 1 (b0 :: b1 :: rest) = ([byteZ b0 + 256 * byteZ b1], rest).
Proof.
  cbn [fread16]. change (0 <? 1) with true. cbv iota.
  replace (fread16 (1 - 1) rest) with (@nil Z, rest); [reflexivity|].
  change (1 - 1) with 0. destruct rest as [|x [|y r]]; reflexivity.
Qed.

Lemma store_items_spec (items : list Z) :
  forall (p : Z) (s0 : machine),
    0 <= p -> p + Z.of_nat (length items) <= UINT16_MAX ->
    exists s',
      store_items p items s0 = Ok tt s' /\
      (reg s' = reg s0 /\ tty s' = tty s0 /\ running s' = running s0) /\
      (forall i, (i < length items)%nat ->
                 memory s' (p + Z.of_nat i) = nth i items 0) /\
      (forall a, a < p \/ p + Z.of_nat (length items) <= a ->
                 memory s' a = memory s0 a).
Proof.
  induction items as [|w rest IH]; intros p s0 Hp Hq; cbn [store_items length] in *.
  - exists s0. repeat split; trivial. intros i Hi. lia.
  - rewrite (bind_eq _ _ _ _ _ (store_Ok p w s0 ltac:(lia))).
    destruct (IH (p + 1) (with_memory (upd (memory s0) p w) s0))
      as (s' & E & F & In & Out); [lia | lia |].
    exists s'. split; [exact E|]. split; [exact F|]. split.
    + intros [|i] Hi.
      * rewrite Out by lia. cbn. rewrite Z.add_0_r. apply upd_same.
      * replace (p + Z.of_nat (S i)) with (p + 1 + Z.of_nat i) by lia.
        apply In. lia.
    + intros a Ha. rewrite Out by lia. cbn. apply upd_other. lia.
Qed.

Lemma swap_loop_spec (read : nat) :
  forall (p : Z) (s0 : machine),
    0 <= p -> p + Z.of_nat read <= UINT16_MAX ->
    exists s',
      swap_loop read p s0 = Ok tt s' /\
      (reg s' = reg s0 /\ tty s' = tty s0 /\ running s' = running s0) /\
      (forall i, (i < read)%nat ->
                 memory s' (p + Z.of_nat i) = swap16 (memory s0 (p + Z.of_nat i))) /\
      (forall a, a < p \/ p + Z.of_nat read <= a ->
                 memory s' a = memory s0 a).
Proof.
  induction read as [|read IH]; intros p s0 Hp Hq; cbn [swap_loop].
  - exists s0. repeat split; trivial. intros i Hi. lia.
  - rewrite (bind_eq _ _ _ _ _ (load_Ok p s0 ltac:(lia))).
    rewrite (bind_eq _ _ _ _ _ (store_Ok p _ s0 ltac:(lia))).
    destruct (IH (p + 1) (with_memory (upd (memory s0) p (swap16 (memory s0 p))) s0))
      as (s' & E & F & In & Out); [lia | lia |].
    exists s'. split; [exact E|]. split; [exact F|]. split.
    + intros [|i] Hi.
      * rewrite Out by lia. cbn. rewrite Z.add_0_r. apply upd_same.
      * replace (p + Z.of_nat (S i)) with (p + 1 + Z.of_nat i) by lia.
        rewrite In by lia. cbn. now rewrite upd_other by lia.
    + intros a Ha. rewrite Out by lia. cbn. apply upd_other. lia.
Qed.

Lemma origin_range (b0 b1 : byte) : 0 <= 256 * byteZ b0 + byteZ b1 <= UINT16_MAX.
Proof.
  pose proof (byteZ_range b0). pose proof (byteZ_range b1).
  unfold UINT16_MAX. lia.
Qed.

(** What [read_image_file] does with an image of two bytes or more: the
    first two bytes are the origin, high byte first; the words that follow
    are stored from the origin on, as many as the file holds and at most
    [UINT16_MAX - origin]; nothing else changes. *)
Lemma read_image_file_loads (b0 b1 : byte) (rest : list byte) (s : machine) :
  let origin := 256 * byteZ b0 + byteZ b1 in
  let count := Nat.min (Z.to_nat (UINT16_MAX - origin)) (length (be_words rest)) in
  exists s',
    read_image_file (b0 :: b1 :: rest) s = Ok tt s' /\
    (forall i, (i < count)%nat ->
               memory s' (origin + Z.of_nat i) = nth i (be_words rest) 0) /\
    (forall a, a < origin \/ origin + Z.of_nat count <= a ->
               memory s' a = memory s a) /\
    reg s' = reg s /\ tty s' = tty s /\ running s' = running s.
Proof.
  intros origin count. pose proof (origin_range b0 b1) as Ho. fold origin in Ho.
  unfold read_image_file. rewrite fread16_one. cbv beta iota.
  rewrite swap16_bytes by apply byteZ_range. fold origin.
  rewrite uint16_small by (unfold UINT16_MAX in *; lia).
  pose proof (fread16_items rest (UINT16_MAX - origin)) as Items.
  destruct (fread16 (UINT16_MAX - origin) rest) as [items file']. cbn [fst] in Items.
  assert (Len : length items = count).
  { rewrite <- (length_map swap16), Items. apply length_firstn. }
  assert (Fit : origin + Z.of_nat (length items) <= UINT16_MAX) by lia.
  destruct (store_items_spec items origin s ltac:(lia) Fit)
    as (s1 & E1 & (R1 & T1 & G1) & In1 & Out1).
  destruct (swap_loop_spec (length items) origin s1 ltac:(lia) Fit)
    as (s2 & E2 & (R2 & T2 & G2) & In2 & Out2).
  exists s2. rewrite (bind_eq _ _ _ _ _ E1), E2, <- Len.
  repeat split; try congruence.
  - intros i Hi. rewrite In2, In1 by exact Hi.
    rewrite <- (map_nth swap16 items 0 i), Items. change (swap16 0) with 0.
    rewrite nth_firstn.
    destruct (Nat.ltb_spec i (Z.to_nat (UINT16_MAX - origin))); [reflexivity | lia].
  - intros a Ha. rewrite Out2, Out1 by exact Ha. reflexivity.
Qed.

(** C7. The loader reads the first word of the image as the big-endian
    origin and then loads at most 65,536 - origin of the subsequent
    big-endian words into memory starting at the origin: [count] of them,
    the number the file holds cut off at [UINT16_MAX - origin].  No cell
    before the origin or past the cell that follows the last word is
    written. *)
Theorem read_image_file_spec (b0 b1 : byte) (rest : list byte) (s : machine) :
  let origin := 256 * byteZ b0 + byteZ b1 in
  let count := Nat.min (Z.to_nat (UINT16_MAX - origin)) (length (be_words rest)) in
  exists s',
    read_image_file (b0 :: b1 :: rest) s = Ok tt s' /\
    Z.of_nat count <= 65536 - origin /\
    (forall i, (i < count)%nat ->
               memory s' (origin + Z.of_nat i) = nth i (be_words rest) 0) /\
    (forall a, a < origin \/ origin + Z.of_nat count < a ->
               memory s' a = memory s a).
Proof.
  intros origin count.
  destruct (read_image_file_loads b0 b1 rest s) as (s' & E & In & Out & _).
  exists s'. split; [exact E|]. split; [|split; [exact In|]].
  - pose proof (origin_range b0 b1) as Ho. fold origin in Ho.
    unfold UINT16_MAX in *. lia.
  - intros a Ha. apply Out. lia.
Qed.

Lemma be_words_range (bs : list byte) (i : nat) :
  0 <= nth i (be_words bs) 0 < 65536.
Proof.
  revert i. induction bs as [| x | hi lo rest IH] using list_pair_ind;
    intros i; cbn [be_words].
  - destruct i; cbn; lia.
  - destruct i; cbn; lia.
  - destruct i as [|i]; cbn [nth]; [|apply IH].
    pose proof (byteZ_range hi). pose proof (byteZ_range lo). lia.
Qed.

Lemma read_image_file_wf (file : list byte) (s s' : machine) :
  wf s -> read_image_file file s = Ok tt s' ->
  wf s' /\ reg s' = reg s /\ tty s' = tty s /\ running s' = running s.
Proof.
  intros [Wm Wr] H.
  destruct file as [|b0 [|b1 rest]]; try discriminate H.
  destruct (read_image_file_loads b0 b1 rest s)
    as (s2 & E & In & Out & R & T & G).
  rewrite E in H. inversion H. subst s2. clear H E.
  split; [split; [|now rewrite R] | now repeat split].
  intros a Ha.
  set (origin := 256 * byteZ b0 + byteZ b1) in *.
  set (count := Nat.min _ _) in *.
  destruct (Z_lt_le_dec a origin) as [Lo | Hi].
  - rewrite Out by lia. now apply Wm.
  - destruct (Z_lt_le_dec a (origin + Z.of_nat count)) as [Mid | Up].
    + replace a with (origin + Z.of_nat (Z.to_nat (a - origin))) by lia.
      rewrite In by lia. apply be_words_range.
    + rewrite Out by lia. now apply Wm.
Qed.

Lemma read_images_wf (images : list (list byte)) :
  forall s s',
    wf s -> read_images images s = Ok tt s' ->
    wf s' /\ reg s' = reg s /\ tty s' = tty s /\ running s' = running s.
Proof.
  induction images as [|file images IH]; intros s s' W H; cbn [read_images] in H.
  - vm_inv. auto.
  - apply bind_Ok in H. destruct H as ([] & s1 & H1 & H).
    apply (read_image_file_wf _ _ _ W) in H1. destruct H1 as (W1 & R1 & T1 & G1).
    apply (IH _ _ W1) in H. destruct H as (W2 & R2 & T2 & G2).
    split; [exact W2 | repeat split; congruence].
Qed.

(** [main] enters its loop with well-formed memory, PC = 0x3000 and every
    other register, COND included, zero. *)
Lemma startup_state (images : list (list byte)) (con : console) (s : machine) :
  startup images (zeroed con) = Ok tt s ->
  wf s /\ reg s R_PC = PC_START /\
  (forall r, r <> R_PC -> reg s r = 0) /\
  running s = true /\ tty s = con.
Proof.
  intros H. unfold startup in H.
  apply bind_Ok in H. destruct H as ([] & s1 & H1 & H).
  apply (read_images_wf _ _ _ (wf_zeroed con)) in H1.
  destruct H1 as ([Wm Wr] & R & T & G).
  vm_inv. cbn in *.
  split; [split; cbn; [exact Wm|] | repeat split; trivial].
  - apply wf_reg_upd; [exact Wr | unfold PC_START; lia].
  - intros r Hr. rewrite upd_other by exact Hr. now rewrite R.
Qed.

Lemma step_wf (s s' : machine) : wf s -> step s = Ok tt s' -> wf s'.
Proof.
  intros W H. unfold step in H.
  apply bind_Ok in H. destruct H as (instr & s1 & F & H).
  apply fetch_Ok in F. destruct F as (_ & _ & F).
  destruct (F W) as [W1 _]. exact (execute_wf _ _ _ W1 H).
Qed.

(** Every state of the loop is well formed, and its COND is zero or one of
    the three flags. *)
Lemma reachable_wf (s : machine) : reachable s -> wf s.
Proof.
  induction 1 as [images con s H | s s' _ IH _ H].
  - now apply startup_state in H.
  - exact (step_wf _ _ IH H).
Qed.

Lemma reachable_COND (s : machine) :
  reachable s ->
  reg s R_COND = 0 \/ reg s R_COND = 4 \/ reg s R_COND = 2 \/ reg s R_COND = 1.
Proof.
  induction 1 as [images con s H | s s' R IH _ H].
  - apply startup_state in H. destruct H as (_ & _ & Z0 & _).
    left. apply Z0. discriminate.
  - unfold step in H. apply bind_Ok in H. destruct H as (instr & s1 & F & H).
    apply fetch_Ok in F. destruct F as (E & _ & F).
    destruct (F (reachable_wf _ R)) as [W1 _].
    destruct (execute_cases _ _ _ W1 H) as [_ [[_ C] | [_ C]]].
    + right. rewrite C. apply flag_of_word_one_hot.
    + rewrite C, E, upd_other by discriminate. exact IH.
Qed.

(* ================================================================= *)
(** ** Sample machines are states of the loop *)

Lemma br_demo_reachable : reachable br_demo.
Proof. apply (reach_start [[x30; x00; x0e; x05]] quiet). vm_compute. reflexivity. Qed.

Lemma wf_started (hi lo : byte) : wf (started hi lo).
Proof.
  unfold started.
  destruct (startup [[x30; x00; hi; lo]] (zeroed quiet)) as [[] s | f] eqn:E.
  - now apply startup_state in E.
  - apply wf_zeroed.
Qed.

Lemma wf_add_demo : wf add_demo.
Proof.
  destruct (wf_started x12 x20) as [Wm Wr].
  split; [exact Wm | apply wf_reg_upd; [exact Wr | lia]].
Qed.

Lemma flags_after_execute_witness :
  wf add_demo /\
  execute 4640 add_demo = Ok tt (final (execute 4640 add_demo) add_demo) /\
  (if designates_DR (opcode 4640)
   then reg (final (execute 4640 add_demo) add_demo) R_COND =
          flag_of_word (reg (final (execute 4640 add_demo) add_demo) (DR_field 4640)) /\
        (reg (final (execute 4640 add_demo) add_demo) R_COND = 4 \/
         reg (final (execute 4640 add_demo) add_demo) R_COND = 2 \/
         reg (final (execute 4640 add_demo) add_demo) R_COND = 1)
   else reg (final (execute 4640 add_demo) add_demo) R_COND = reg add_demo R_COND).
Proof.
  assert (E : execute 4640 add_demo = Ok tt (final (execute 4640 add_demo) add_demo))
    by (vm_compute; reflexivity).
  split; [exact wf_add_demo|]. split; [exact E|].
  exact (flags_after_execute 4640 add_demo _ wf_add_demo E).
Defined.

Lemma JSR_saves_PC_then_jumps_witness :
  fetch jsr_demo = Ok 18434 (final (fetch jsr_demo) jsr_demo) /\
  opcode 18434 = OP_JSR /\
  exists s',
    step jsr_demo = Ok tt s' /\
    reg (final (fetch jsr_demo) jsr_demo) R_PC = 12289 /\
    reg s' R_R7 = 12289 /\ reg s' R_PC = 12291.
Proof.
  assert (F : fetch jsr_demo = Ok 18434 (final (fetch jsr_demo) jsr_demo))
    by (vm_compute; reflexivity).
  split; [exact F|]. split; [reflexivity|].
  exact (JSR_saves_PC_then_jumps 18434 jsr_demo _ F eq_refl).
Defined.

Lemma JSRR_R7_jumps_to_saved_PC_witness :
  fetch jsrr_demo = Ok 16832 (final (fetch jsrr_demo) jsrr_demo) /\
  opcode 16832 = OP_JSR /\ Z.testbit 16832 11 = false /\
  BaseR_field 16832 = R_R7 /\ reg jsrr_demo R_R7 = 4660 /\
  exists s',
    step jsrr_demo = Ok tt s' /\ reg s' R_PC = 12289 /\ reg s' R_R7 = 12289.
Proof.
  assert (F : fetch jsrr_demo = Ok 16832 (final (fetch jsrr_demo) jsrr_demo))
    by (vm_compute; reflexivity).
  repeat (split; [first [exact F | reflexivity]|]).
  exact (JSRR_R7_jumps_to_saved_PC 16832 jsrr_demo _ F eq_refl eq_refl eq_refl).
Defined.

(* ================================================================= *)
(** ** TRAP *)

(** What the loop does with a TRAP instruction, whatever its vector: PC
    stays at the instruction after the TRAP and R7 keeps the value it had. *)
Lemma trap_step_registers (instr : Z) (s s1 s' : machine) :
  wf s -> fetch s = Ok instr s1 -> opcode instr = OP_TRAP ->
  step s = Ok tt s' ->
  reg s' R_PC = uint16 (reg s R_PC + 1) /\ reg s' R_R7 = reg s R_R7.
Proof.
  intros W F E H. unfold OP_TRAP in E.
  rewrite (step_eq _ _ _ F), (execute_eq _ _ E) in H. cbv beta iota in H.
  apply fetch_Ok in F. destruct F as (R & _ & F). destruct (F W) as [W1 _].
  apply (trap_dispatch_frame s1 s' W1) in H. destruct H as (_ & _ & K).
  rewrite !K, R by discriminate.
  now rewrite upd_same, upd_other by discriminate.
Qed.

(** The function [op_TRAP], which [main] never calls, does save PC in R7,
    and then loads PC from the trap vector table. *)
Lemma op_TRAP_saves_PC (instr : Z) (s s' : machine) :
  op_TRAP instr s = Ok tt s' -> reg s' R_R7 = reg s R_PC.
Proof.
  intros H. unfold op_TRAP in H. vm_inv. cbn in *.
  rewrite upd_other by discriminate.
  match goal with R : reg _ = upd _ _ _ |- _ => rewrite R end.
  apply upd_same.
Qed.

(** C1. TRAP x21 (OUT) at 0x3000, executed by the loop from the start-up
    state: PC continues at 0x3001 and is not loaded from the vector table,
    but R7 is still 0 afterwards.  The loop's TRAP case runs the service
    routine without ever writing R7, so the return address that TRAP is
    specified to put in R7 is not saved. *)
Theorem TRAP_leaves_R7_unsaved :
  fetch trap_demo = Ok 61473 (final (fetch trap_demo) trap_demo) /\
  opcode 61473 = OP_TRAP /\ Z.land 61473 255 = TRAP_OUT /\
  reg (final (fetch trap_demo) trap_demo) R_PC = 12289 /\
  step trap_demo = Ok tt (final (step trap_demo) trap_demo) /\
  reg (final (step trap_demo) trap_demo) R_PC = 12289 /\
  reg (final (step trap_demo) trap_demo) R_R7 = 0 /\
  stdout (tty (final (step trap_demo) trap_demo)) = [0].
Proof. repeat split; vm_compute; reflexivity. Qed.

(* ================================================================= *)
(** ** BR *)

(** [op_BR] never fails: it adds the offset to PC when the mask meets COND
    and does nothing otherwise. *)
Lemma op_BR_Ok (instr : Z) (s : machine) :
  op_BR instr s =
    if Z.land (Z.land (Z.shiftr instr 9) 7) (reg s R_COND) =? 0
    then Ok tt s
    else Ok tt (with_reg
                  (upd (reg s) R_PC
                       (uint16 (reg s R_PC + sign_extend (Z.land instr 511) 9)))
                  s).
Proof.
  unfold op_BR, bind, get_reg, set_reg, ret, truthy.
  destruct (Z.land (Z.land (Z.shiftr instr 9) 7) (reg s R_COND) =? 0); reflexivity.
Qed.

(** C4 (counterexample). BRnzp #5 at 0x3000, executed from the start-up
    state, where COND is 0: the branch is not taken, PC is 0x3001 and not
    0x3001 + 5. *)
Lemma BR_nzp_not_taken_at_startup :
  reachable br_demo /\
  reg br_demo R_COND = 0 /\
  fetch br_demo = Ok 3589 (final (fetch br_demo) br_demo) /\
  opcode 3589 = OP_BR /\ Z.land (Z.shiftr 3589 9) 7 = 7 /\
  step br_demo = Ok tt (final (step br_demo) br_demo) /\
  reg (final (step br_demo) br_demo) R_PC = 12289 /\
  uint16 (reg (final (fetch br_demo) br_demo) R_PC
          + sign_extend (Z.land 3589 511) 9) = 12294.
Proof.
  split; [exact br_demo_reachable|].
  repeat split; vm_compute; reflexivity.
Qed.

(** C4 (amended). In every state whose COND holds one of the flags N, Z, P,
    as it does once a flag-updating instruction has executed, BR with mask
    0b111 adds the sign-extended PCoffset9 to PC; while COND is still zero, as
    it is at start-up, no BR changes PC.  In every state BR with mask 0b000
    leaves PC alone. *)
Theorem BR_mask_all_or_none (instr : Z) (s s1 : machine) :
  fetch s = Ok instr s1 -> opcode instr = OP_BR ->
  (Z.land (Z.shiftr instr 9) 7 = 7 ->
   reg s R_COND = 4 \/ reg s R_COND = 2 \/ reg s R_COND = 1 ->
   exists s', step s = Ok tt s' /\
              reg s' R_PC =
                uint16 (reg s1 R_PC + sign_extend (Z.land instr 511) 9)) /\
  (reg s R_COND = 0 ->
   exists s', step s = Ok tt s' /\ reg s' R_PC = reg s1 R_PC) /\
  (Z.land (Z.shiftr instr 9) 7 = 0 ->
   exists s', step s = Ok tt s' /\ reg s' R_PC = reg s1 R_PC).
Proof.
  intros F E. unfold OP_BR in E.
  rewrite (step_eq _ _ _ F), (execute_eq _ _ E). cbv beta iota.
  rewrite op_BR_Ok.
  apply fetch_Ok in F. destruct F as (R & _).
  assert (C : reg s1 R_COND = reg s R_COND)
    by (rewrite R; now apply upd_other).
  rewrite C. split; [|split].
  - intros -> Hc.
    replace (Z.land 7 (reg s R_COND) =? 0) with false
      by (destruct Hc as [-> | [-> | ->]]; reflexivity).
    eexists. split; [reflexivity|]. apply upd_same.
  - intros ->. rewrite Z.land_0_r. cbn. eauto.
  - intros ->. rewrite Z.land_0_l. cbn. eauto.
Qed.

Lemma BR_mask_all_or_none_witness :
  fetch (with_reg (upd (reg br_demo) R_COND 2) br_demo) =
    Ok 3589 (final (fetch (with_reg (upd (reg br_demo) R_COND 2) br_demo)) br_demo) /\
  opcode 3589 = OP_BR /\ Z.land (Z.shiftr 3589 9) 7 = 7 /\
  exists s',
    step (with_reg (upd (reg br_demo) R_COND 2) br_demo) = Ok tt s' /\
    reg s' R_PC = 12294.
Proof.
  assert (F : fetch (with_reg (upd (reg br_demo) R_COND 2) br_demo) =
                Ok 3589 (final (fetch (with_reg (upd (reg br_demo) R_COND 2) br_demo))
                               br_demo))
    by (vm_compute; reflexivity).
  split; [exact F|]. split; [reflexivity|]. split; [reflexivity|].
  exact (proj1 (BR_mask_all_or_none 3589 _ _ F eq_refl) eq_refl
               (or_intror (or_introl eq_refl))).
Defined.

(** Before the first flag-updating instruction COND is 0 and no BR is
    taken, whatever its mask. *)
Lemma BR_not_taken_when_COND_is_zero (instr : Z) (s : machine) :
  reg s R_COND = 0 -> op_BR instr s = Ok tt s.
Proof. intros C. rewrite op_BR_Ok, C, Z.land_0_r. reflexivity. Qed.

(* ================================================================= *)
(** ** PUTSP *)

Lemma emit_emit (a b : list Z) (s : machine) : emit b (emit a s) = emit (a ++ b) s.
Proof. unfold emit. cbn. now rewrite app_assoc. Qed.

Lemma emit_nil (s : machine) : emit [] s = s.
Proof. destruct s as [m r b [i e o]]. unfold emit. cbn. now rewrite app_nil_r. Qed.

Lemma int8_mod (z : Z) : int8 z mod 256 = z mod 256.
Proof.
  unfold int8.
  pose proof (Z.div_mod (z + 128) 256 ltac:(lia)) as E.
  replace ((z + 128) mod 256 - 128) with (z + (- ((z + 128) / 256)) * 256) by lia.
  apply Z_mod_plus_full.
Qed.

Lemma putc_low_byte (x : Z) (s : machine) :
  putc (int8 (Z.land x 255)) s = Ok tt (emit [Z.land x 255] s).
Proof.
  unfold putc, emit. rewrite int8_mod.
  change 255 with (Z.ones 8). rewrite Z.land_ones by lia.
  now rewrite Z.mod_mod by lia.
Qed.

Lemma words_at_S (s : machine) (a : Z) (n : nat) :
  words_at s a (S n) = memory s a :: words_at s (a + 1) n.
Proof.
  unfold words_at. cbn [seq map]. rewrite Z.add_0_r. f_equal.
  rewrite <- seq_shift, map_map. apply map_ext. intros i. f_equal. lia.
Qed.

Lemma words_at_emit (cs : list Z) (s : machine) (a : Z) (n : nat) :
  words_at (emit cs s) a n = words_at s a n.
Proof. reflexivity. Qed.

Lemma high_byte_shiftr (w : Z) :
  0 <= w < 65536 -> Z.shiftr w 8 = high_byte w.
Proof.
  intros H. unfold high_byte. change 255 with (Z.ones 8).
  rewrite Z.land_ones, Z.shiftr_div_pow2 by lia. change (2 ^ 8) with 256.
  symmetry. apply Z.mod_small.
  split; [apply Z.div_pos; lia | apply Z.div_lt_upper_bound; lia].
Qed.

(** The loop of [trap_PUTSP], started inside memory with a terminating word
    [k] cells ahead, writes the specified bytes and returns. *)
Lemma trap_PUTSP_loop_spec (k : nat) :
  forall (cells : nat) (c : Z) (s : machine),
    wf_mem (memory s) -> 0 <= c -> (k < cells)%nat ->
    (forall j, (j < k)%nat -> high_byte (memory s (c + Z.of_nat j)) <> 0) ->
    high_byte (memory s (c + Z.of_nat k)) = 0 ->
    c + Z.of_nat cells <= UINT16_MAX ->
    trap_PUTSP_loop cells c s =
      Ok tt (emit (putsp_bytes (words_at s c (S k))) s).
Proof.
  induction k as [|k IH]; intros cells c s Wm Hc Hk Full Last Fit;
    (destruct cells as [|cells]; [lia|]); cbn [trap_PUTSP_loop];
    rewrite (bind_eq _ _ _ _ _ (load_Ok c s ltac:(lia)));
    rewrite words_at_S; cbn [putsp_bytes];
    rewrite (high_byte_shiftr (memory s c)) by (apply Wm; lia).
  - rewrite Z.add_0_r in Last. unfold truthy.
    destruct (memory s c =? 0); cbn [negb].
    + unfold ret. now rewrite emit_nil.
    + rewrite (bind_eq _ _ _ _ _ (putc_low_byte _ s)), Last. reflexivity.
  - assert (N : high_byte (memory s c) <> 0).
    { specialize (Full 0%nat ltac:(lia)). now rewrite Z.add_0_r in Full. }
    assert (N0 : memory s c <> 0).
    { intros E. apply N. rewrite E. reflexivity. }
    unfold truthy. rewrite (proj2 (Z.eqb_neq _ _) N0). cbn [negb].
    rewrite (bind_eq _ _ _ _ _ (putc_low_byte _ s)).
    rewrite (proj2 (Z.eqb_neq _ _) N).
    fold (high_byte (memory s c)).
    replace (int8 (high_byte (memory s c)))
      with (int8 (Z.land (high_byte (memory s c)) 255)).
    2:{ f_equal. unfold high_byte. now rewrite <- Z.land_assoc. }
    rewrite (bind_eq _ _ _ _ _ (putc_low_byte _ _)).
    replace (Z.land (high_byte (memory s c)) 255) with (high_byte (memory s c)).
    2:{ unfold high_byte. now rewrite <- Z.land_assoc. }
    rewrite emit_emit.
    rewrite (IH cells (c + 1)); [| exact Wm | lia | lia | | | lia].
    + now rewrite emit_emit, words_at_emit.
    + intros j Hj. replace (c + 1 + Z.of_nat j) with (c + Z.of_nat (S j)) by lia.
      apply Full. lia.
    + replace (c + 1 + Z.of_nat k) with (c + Z.of_nat (S k)) by lia. exact Last.
Qed.

(** [putsp_bytes] in closed form: two bytes for each word before the
    terminating word, and the low byte of the terminating word unless that
    word is zero. *)
Lemma putsp_bytes_shape (ws : list Z) (t : Z) :
  Forall (fun w => w <> 0 /\ high_byte w <> 0) ws ->
  t = 0 \/ high_byte t = 0 ->
  putsp_bytes (ws ++ [t]) =
    flat_map (fun w => [low_byte w; high_byte w]) ws
    ++ (if t =? 0 then [] else [low_byte t]).
Proof.
  intros Full Last. induction Full as [|w ws [N0 N] _ IH]; cbn [app putsp_bytes flat_map].
  - destruct (Z.eqb_spec t 0) as [E | E]; [reflexivity|].
    destruct Last as [-> | ->]; [contradiction | reflexivity].
  - rewrite (proj2 (Z.eqb_neq _ _) N0), (proj2 (Z.eqb_neq _ _) N), IH.
    reflexivity.
Qed.

(** C9. Executing TRAP x24 (PUTSP) writes, starting at memory[R0], for each
    non-zero word its bits 7..0 and then, if bits 15..8 are non-zero, bits
    15..8; the output stops at the first zero word or at the first word whose
    high byte is zero.  Here that word lies [k] cells after memory[R0], inside
    memory, and [putsp_bytes] spells out the bytes written. *)
Theorem PUTSP_writes_packed_string (instr : Z) (s s1 : machine) (k : nat) :
  wf s -> fetch s = Ok instr s1 ->
  opcode instr = OP_TRAP -> Z.land instr 255 = TRAP_PUTSP ->
  let r0 := reg s1 R_R0 in
  r0 + Z.of_nat k < UINT16_MAX ->
  (forall j, (j < k)%nat ->
             memory s1 (r0 + Z.of_nat j) <> 0 /\
             high_byte (memory s1 (r0 + Z.of_nat j)) <> 0) ->
  (memory s1 (r0 + Z.of_nat k) = 0 \/
   high_byte (memory s1 (r0 + Z.of_nat k)) = 0) ->
  step s = Ok tt (emit (putsp_bytes (words_at s1 r0 (S k))) s1).
Proof.
  intros W F E V r0 Fit Full Last. unfold OP_TRAP in E. unfold TRAP_PUTSP in V.
  rewrite (step_eq _ _ _ F), (execute_eq _ _ E). cbv beta iota.
  unfold trap_dispatch. rewrite V. cbv beta iota.
  apply fetch_Ok in F. destruct F as (_ & _ & F). destruct (F W) as [[Wm Wr] _].
  assert (R0 : 0 <= r0 < 65536) by (apply Wr; unfold R_COUNT, R_R0; lia).
  unfold trap_PUTSP, bind, get_reg. fold r0.
  rewrite (trap_PUTSP_loop_spec k); try assumption; try lia.
  - reflexivity.
  - intros j Hj. now apply Full.
  - destruct Last as [-> | L]; [reflexivity | exact L].
Qed.

Lemma PUTSP_writes_packed_string_witness :
  wf putsp_demo /\
  fetch putsp_demo = Ok 61476 (final (fetch putsp_demo) putsp_demo) /\
  opcode 61476 = OP_TRAP /\ Z.land 61476 255 = TRAP_PUTSP /\
  words_at putsp_demo 12289 2 = [26952; 33] /\
  exists s',
    step putsp_demo = Ok tt s' /\ stdout (tty s') = [72; 105; 33].
Proof.
  assert (W : wf putsp_demo).
  { unfold putsp_demo.
    destruct (startup [[x30; x00; xf0; x24; x69; x48; x00; x21]] (zeroed quiet))
      as [[] s | f] eqn:E; cbn [final].
    - apply startup_state in E. destruct E as ([Wm Wr] & _).
      split; [exact Wm | apply wf_reg_upd; [exact Wr | lia]].
    - destruct (wf_zeroed quiet) as [Wm Wr].
      split; [exact Wm | apply wf_reg_upd; [exact Wr | lia]]. }
  assert (F : fetch putsp_demo = Ok 61476 (final (fetch putsp_demo) putsp_demo))
    by (vm_compute; reflexivity).
  split; [exact W|]. split; [exact F|].
  split; [reflexivity|]. split; [reflexivity|].
  split; [vm_compute; reflexivity|].
  eexists. split.
  - apply (PUTSP_writes_packed_string 61476 putsp_demo _ 1 W F eq_refl eq_refl).
    + vm_compute. reflexivity.
    + intros [|j] Hj; [|lia]. vm_compute. split; discriminate.
    + right. vm_compute. reflexivity.
  - vm_compute. reflexivity.
Defined.

(* ================================================================= *)
(** ** Remarks on the loader and on faults *)

(** An image whose origin is 0xFFFF loads nothing: [max_read] is zero there,
    in line with [memory] ending at cell 0xFFFE. *)
Remark image_at_0xFFFF_loads_nothing (hi lo : byte) (s : machine) :
  read_image_file [xff; xff; hi; lo] s = Ok tt s.
Proof. reflexivity. Qed.

(** The loader never leaves the array: every image of two bytes or more is
    loaded without a fault. *)
Remark read_image_file_total (b0 b1 : byte) (rest : list byte) (s : machine) :
  exists s', read_image_file (b0 :: b1 :: rest) s = Ok tt s'.
Proof.
  destruct (read_image_file_loads b0 b1 rest s) as (s' & E & _). now exists s'.
Qed.

Lemma read_image_file_spec_witness :
  exists s',
    read_image_file [x30; x00; x12; x34; x56; x78] (zeroed quiet) = Ok tt s' /\
    memory s' 12288 = 4660 /\ memory s' 12289 = 22136 /\ memory s' 12287 = 0.
Proof.
  destruct (read_image_file_spec x30 x00 [x12; x34; x56; x78] (zeroed quiet))
    as (s' & E & _ & In & Out).
  exists s'. split; [exact E|]. split; [|split].
  - exact (In 0%nat (Nat.lt_0_succ 1)).
  - exact (In 1%nat (Nat.lt_succ_diag_r 1)).
  - exact (Out 12287 (or_introl eq_refl)).
Defined.

(* ================================================================= *)
(** ** Progress: what can stop an instruction *)

(** [mem_read] waits for no input and fails only on an address that names
    no cell of [memory]. *)
Lemma mem_read_progress (address : Z) (s : machine) :
  (exists v s', mem_read address s = Ok v s') \/
  (mem_read address s = Fault OutOfBounds /\ ~ 0 <= address < UINT16_MAX).
Proof.
  unfold mem_read. destruct (Z.eqb_spec address MR_KBSR) as [-> | N].
  - left. unfold bind, check_key, getchar, store, load. cbn.
    destruct (stdin (tty s)) as [|b rest] eqn:E;
      [destruct (stdin_eof (tty s)) eqn:F|]; cbn; rewrite ?E, ?F; cbn; eauto.
  - unfold bind, ret, load. destruct (in_bounds address) eqn:B.
    + left. eauto.
    + right. split; [reflexivity|]. intros H.
      apply in_bounds_iff in H. congruence.
Qed.

Lemma update_flags_total (r : Z) (s : machine) :
  exists s', update_flags r s = Ok tt s'.
Proof.
  unfold update_flags, bind, get_reg, set_reg.
  destruct (reg s r =? 0); [|destruct (truthy (Z.shiftr (reg s r) 15))]; eauto.
Qed.

Lemma bind_get_reg {B} (r : Z) (k : Z -> M B) (s : machine) :
  bind (get_reg r) k s = k (reg s r) s.
Proof. reflexivity. Qed.

Lemma bind_set_reg {B} (r v : Z) (k : unit -> M B) (s : machine) :
  bind (set_reg r v) k s = k tt (with_reg (upd (reg s) r v) s).
Proof. reflexivity. Qed.

Lemma bind_Fault {A B} (m : M A) (k : A -> M B) (s : machine) (f : fault) :
  m s = Fault f -> bind m k s = Fault f.
Proof. unfold bind. now intros ->. Qed.

(** An instruction that designates a destination register always completes,
    unless one of its reads leaves [memory]. *)
Lemma execute_DR_progress (instr : Z) (s : machine) :
  designates_DR (opcode instr) = true ->
  (exists s', execute instr s = Ok tt s') \/
  execute instr s = Fault OutOfBounds.
Proof.
  unfold opcode, execute. intros D.
  destruct (Z.shiftr instr 12) as [|p|p]; try discriminate D.
  repeat (destruct p as [p|p|]; try discriminate D); clear D; cbv beta iota.
  all: unfold op_ADD, op_AND, op_NOT, op_LD, op_LDI, op_LDR, op_LEA.
  all: try (unfold bind at 1; destruct (truthy _)).
  all: repeat first
         [ rewrite bind_get_reg
         | rewrite bind_set_reg
         | match goal with
           | |- context [bind (mem_read ?a) ?k ?s0] =>
               let E := fresh "E" in
               destruct (mem_read_progress a s0) as [(? & ? & E) | [E _]];
               [ rewrite (bind_eq _ _ _ _ _ E); clear E
               | right; now rewrite (bind_Fault _ _ _ _ E) ]
           end ].
  all: left; apply update_flags_total.
Qed.

(* ================================================================= *)
(** ** The loop *)

(** Running the loop for any number of turns stays among the states
    [main] can be in. *)
Lemma run_reachable (fuel : nat) :
  forall s s', reachable s -> run fuel s = Ok tt s' -> reachable s'.
Proof.
  induction fuel as [|fuel IH]; intros s s' R H; cbn [run] in H;
    destruct (running s) eqn:G; try (inversion H; subst; exact R).
  apply bind_Ok in H. destruct H as ([] & s1 & H1 & H).
  exact (IH _ _ (reach_step _ _ R G H1) H).
Qed.

(** Once HALT has cleared the flag the loop does nothing more. *)
Lemma run_stopped (fuel : nat) (s : machine) :
  running s = false -> run fuel s = Ok tt s.
Proof. intros G. destruct fuel; cbn [run]; now rewrite G. Qed.

(* ================================================================= *)
(** ** The worked scenarios of the specification *)

(** ADD R1, R0, #0 with R0 = 5: R1 = 5, COND = P, PC = 0x3001. *)
Example scenario_ADD_immediate :
  step add_demo = Ok tt (final (step add_demo) add_demo) /\
  reg (final (step add_demo) add_demo) 1 = 5 /\
  reg (final (step add_demo) add_demo) R_COND = FL_POS /\
  reg (final (step add_demo) add_demo) R_PC = 12289.
Proof. repeat split; vm_compute; reflexivity. Qed.

(** ADD R1, R1, #-1 (0x127F) with R1 = 1: R1 = 0, COND = Z. *)
Example scenario_ADD_negative_immediate :
  let s := with_reg (upd (reg (zeroed quiet)) 1 1) (zeroed quiet) in
  execute 4735 s = Ok tt (final (execute 4735 s) s) /\
  reg (final (execute 4735 s) s) 1 = 0 /\
  reg (final (execute 4735 s) s) R_COND = FL_ZRO.
Proof. repeat split; vm_compute; reflexivity. Qed.

(** NOT R1, R1 (0x927F) with R1 = 0: R1 = 0xFFFF, COND = N. *)
Example scenario_NOT :
  let s := zeroed quiet in
  execute 37503 s = Ok tt (final (execute 37503 s) s) /\
  reg (final (execute 37503 s) s) 1 = 65535 /\
  reg (final (execute 37503 s) s) R_COND = FL_NEG.
Proof. repeat split; vm_compute; reflexivity. Qed.

(** BRz #3 (0x0403) at 0x3000 with COND = Z: PC = 0x3004. *)
Example scenario_BR_taken :
  let s := with_reg (upd (reg (started x04 x03)) R_COND FL_ZRO) (started x04 x03) in
  step s = Ok tt (final (step s) s) /\
  reg (final (step s) s) R_PC = 12292.
Proof. repeat split; vm_compute; reflexivity. Qed.

(** JSR #2 at 0x3000, then JMP R7 (0xC1C0): R7 = 0x3001, PC = 0x3003, and
    back to PC = 0x3001. *)
Example scenario_JSR_then_RET :
  let s1 := final (step jsr_demo) jsr_demo in
  step jsr_demo = Ok tt s1 /\
  reg s1 R_R7 = 12289 /\ reg s1 R_PC = 12291 /\
  execute 49600 s1 = Ok tt (final (execute 49600 s1) s1) /\
  reg (final (execute 49600 s1) s1) R_PC = 12289.
Proof. repeat split; vm_compute; reflexivity. Qed.

(** TRAP x25 (0xF025): prints "HALT" and a newline and clears the loop flag. *)
Example scenario_HALT :
  let s := started xf0 x25 in
  step s = Ok tt (final (step s) s) /\
  running (final (step s) s) = false /\
  stdout (tty (final (step s) s)) = [72; 65; 76; 84; 10].
Proof. repeat split; vm_compute; reflexivity. Qed.
